(** * Voice-agent relay: a shallow embedding and its verified properties

    The development follows the source files of the repository:

    - [JS]         the fragment of JavaScript values the handlers inspect
                   (parsed JSON, [typeof], truthiness, property access);
    - [Codec]      the sample conversions of the browser audio managers
                   (live-media-manager.js);
    - [Backend]    the relay server (backend/src/index.ts): voice activity
                   detection, the per-chunk loop, the two socket handlers;
    - [LiveClient] the event-emitting client (lib/multimodal-live-client.ts).

    The ["message"] listener of a browser socket is an [async] function
    that waits for the transcription service in the middle of its loop;
    other listeners run meanwhile.  [Backend.deliver] is the server with
    that interleaving; [Backend.run] is the special case in which every
    transcription is answered before the next message is looked at. *)

From Stdlib Require Import ZArith NArith QArith Qabs Bool List String Ascii Lia.
From Stdlib.Strings Require Import Byte.
From Stdlib Require Import Floats.
Import ListNotations.

Set Warnings "-register-all".

Open Scope Z_scope.

(** ** JavaScript values *)

Module JS.

(** A value produced by [JSON.parse].  Numbers are binary64, as in the
    language; an object keeps its members in source order. *)
Inductive json : Type :=
| JNull
| JBool (b : bool)
| JNum (x : float)
| JStr (s : string)
| JArr (items : list json)
| JObj (members : list (string * json)).

(** The result of reading a property: [None] is [undefined]. *)
Definition value := option json.

(** What a statement sequence can end with: a normal result, or a thrown
    exception (the handlers only distinguish their own [Error] from the
    runtime's [TypeError] and [RangeError]). *)
Inductive exn : Type :=
| TypeError
| RangeError
| Error (message : string).

Inductive result (A : Type) : Type :=
| Ok (a : A)
| Throw (e : exn).
Arguments Ok {A} a.
Arguments Throw {A} e.

Definition bind {A B} (r : result A) (k : A -> result B) : result B :=
  match r with
  | Ok a => k a
  | Throw e => Throw e
  end.

Declare Scope js_scope.
Delimit Scope js_scope with js.
Notation "x <- c ;; k" := (bind c (fun x => k))
  (at level 61, c at next level, right associativity) : js_scope.

Inductive jstype : Type :=
| TUndefined | TObject | TBoolean | TNumber | TString.

Definition jstype_eqb (a b : jstype) : bool :=
  match a, b with
  | TUndefined, TUndefined | TObject, TObject | TBoolean, TBoolean
  | TNumber, TNumber | TString, TString => true
  | _, _ => false
  end.

(** [typeof v]; note that [typeof null] is ["object"]. *)
Definition typeof (v : value) : jstype :=
  match v with
  | None => TUndefined
  | Some JNull => TObject
  | Some (JBool _) => TBoolean
  | Some (JNum _) => TNumber
  | Some (JStr _) => TString
  | Some (JArr _) => TObject
  | Some (JObj _) => TObject
  end.

(** [ToBoolean]: [undefined], [null], [false], [0], [-0], [NaN] and [""]
    are falsy, everything else is truthy. *)
Definition truthy (v : value) : bool :=
  match v with
  | None => false
  | Some JNull => false
  | Some (JBool b) => b
  | Some (JNum x) => negb (PrimFloat.is_zero x || PrimFloat.is_nan x)
  | Some (JStr s) => negb (String.eqb s "")
  | Some (JArr _) => true
  | Some (JObj _) => true
  end.

Fixpoint lookup (k : string) (members : list (string * json)) : value :=
  match members with
  | [] => None
  | (k', v) :: rest => if String.eqb k k' then Some v else lookup k rest
  end.

(** [a[k]] for the member names the handlers read ([serverContent],
    [mimeType], [data], ...): none of them lives on a built-in prototype,
    so only objects can answer, primitives and arrays give [undefined],
    and reading from [null] or [undefined] throws. *)
Definition get (a : value) (k : string) : result value :=
  match a with
  | None => Throw TypeError
  | Some JNull => Throw TypeError
  | Some (JObj members) => Ok (lookup k members)
  | Some _ => Ok None
  end.

(** [k in a] for a truthy [a] whose [typeof] is ["object"]. *)
Definition has (k : string) (a : json) : bool :=
  match a with
  | JObj members => match lookup k members with Some _ => true | None => false end
  | _ => false
  end.

(** [String.prototype.startsWith]. *)
Definition startsWith (s p : string) : bool := String.prefix p s.

(** [String.prototype.includes]. *)
Fixpoint str_includes (s p : string) : bool :=
  String.prefix p s ||
  match s with
  | EmptyString => false
  | String _ rest => str_includes rest p
  end.

Definition is_str (p : string) (v : json) : bool :=
  match v with
  | JStr s => String.eqb s p
  | _ => false
  end.

(** [v.includes(p)] for a string literal [p]: substring search on a
    string, membership on an array, and a [TypeError] on anything else
    (no such method, or no such value). *)
Definition includes (v : value) (p : string) : result bool :=
  match v with
  | Some (JStr s) => Ok (str_includes s p)
  | Some (JArr items) => Ok (existsb (is_str p) items)
  | _ => Throw TypeError
  end.

End JS.

Import JS.

(** ** Typed arrays *)

Module TypedArray.

(** A [Buffer] or [ArrayBuffer]: a sequence of bytes. *)
Definition Buffer := list byte.

(** [Buffer.concat]. *)
Definition Buffer_concat (bufs : list Buffer) : Buffer := List.concat bufs.

(** A Node [Buffer] object is a window on an [ArrayBuffer]: [bytes] is
    what the window shows (what [push], [Buffer.concat] and the length
    see), [arrayBuffer] is all of [buffer.buffer].  The two coincide for a
    buffer that owns its [ArrayBuffer]; a short buffer is carved out of
    the allocation pool, and its [ArrayBuffer] is the whole pool. *)
Record NodeBuffer : Type := mkNodeBuffer {
  bytes : Buffer;
  arrayBuffer : Buffer
}.

(** A buffer with an [ArrayBuffer] of its own. *)
Definition owned (b : Buffer) : NodeBuffer := {| bytes := b; arrayBuffer := b |}.

(** [ToInt16]: the integer taken modulo 2^16 and read as a signed value. *)
Definition toInt16 (n : Z) : Z :=
  let m := n mod 65536 in
  if m <? 32768 then m else m - 65536.

Definition int16_le (lo hi : byte) : Z :=
  toInt16 (Z.of_N (Byte.to_N lo) + 256 * Z.of_N (Byte.to_N hi)).

(** [new Int16Array(arrayBuffer)]: little-endian 16-bit samples; a byte
    length that is not a multiple of two is a [RangeError]. *)
Fixpoint Int16Array (b : Buffer) : result (list Z) :=
  match b with
  | [] => Ok []
  | [_] => Throw RangeError
  | lo :: hi :: rest =>
      match Int16Array rest with
      | Ok samples => Ok (int16_le lo hi :: samples)
      | Throw e => Throw e
      end
  end.

(** An integer as a binary64 number (exact below 2^53). *)
Definition number_of_Z (n : Z) : float :=
  if n <? 0 then (- PrimFloat.of_uint63 (Uint63.of_Z (- n)))%float
  else PrimFloat.of_uint63 (Uint63.of_Z n).

End TypedArray.

Import TypedArray.

(** ** Sample conversion (live-media-manager.js) *)

Module Codec.

(** Truncation of a rational toward zero, the integer part [ToInt16]
    starts from. *)
Definition Qtrunc (x : Q) : Z := Z.quot (Qnum x) (Zpos (Qden x)).

(** [pcm16[i] = inputData[i] * 0x7fff] in [onaudioprocess]: the product
    is stored into an [Int16Array], which truncates and wraps.  A float32
    sample is a rational with a 24-bit significand, so its product with
    the 15-bit constant is exact in binary64: the rational below is the
    number the store sees. *)
Definition float32ToPCM16 (x : Q) : Z := toInt16 (Qtrunc (x * 32767)).

(** [float32Array[i] = inputArray[i] / 32768] in
    [convertPCM16LEToFloat32]: a 16-bit integer over 2^15 is a float32,
    so neither the division nor the store rounds. *)
Definition pcm16ToFloat32 (s : Z) : Q := inject_Z s / 32768.

(** A sample recorded by the input manager and played back by the
    output manager. *)
Definition roundTrip (x : Q) : Q := pcm16ToFloat32 (float32ToPCM16 x).

(** The whole-array versions. *)
Definition float32ArrayToPCM16 (inputData : list Q) : list Z :=
  map float32ToPCM16 inputData.

Definition convertPCM16LEToFloat32 (pcmData : Buffer) : result (list Q) :=
  match Int16Array pcmData with
  | Ok inputArray => Ok (map pcm16ToFloat32 inputArray)
  | Throw e => Throw e
  end.

(** The same two assignments on machine numbers, for cross-checking the
    rational model by evaluation. *)
Definition trunc_number (x : float) : Z :=
  match Prim2SF x with
  | S754_finite s m e =>
      let mag := if (0 <=? e)%Z then Z.shiftl (Zpos m) e
                 else Z.shiftr (Zpos m) (- e) in
      if s then - mag else mag
  | _ => 0
  end.

Definition float32ToPCM16_number (x : float) : Z :=
  toInt16 (trunc_number (x * number_of_Z 32767)%float).

Definition pcm16ToFloat32_number (s : Z) : float :=
  (number_of_Z s / number_of_Z 32768)%float.

(** The rational a finite machine number denotes. *)
Definition Q_of_number (x : float) : Q :=
  match Prim2SF x with
  | S754_finite s m e =>
      let mag := if (0 <=? e)%Z then inject_Z (Z.shiftl (Zpos m) e)
                 else (inject_Z (Zpos m) / inject_Z (Z.shiftl 1 (- e)))%Q in
      if s then (- mag)%Q else mag
  | _ => 0%Q
  end.

End Codec.

(** ** The relay server (backend/src/index.ts) *)

Module Backend.

(** *** Voice activity detection *)

Record AudioState : Type := mkAudioState {
  isRecording : bool;
  buffer : list Buffer;
  silenceCount : nat
}.

(** The module-level [audioState] as the program starts. *)
Definition audioState0 : AudioState :=
  {| isRecording := false; buffer := []; silenceCount := 0 |}.

Definition SILENCE_THRESHOLD : float := number_of_Z 700.
Definition MIN_SILENCE_FRAMES : nat := 10.
Definition MIN_VOICE_FRAMES : nat := 5.

(** [detectVoiceActivity]: the root mean square of the 16-bit samples
    against the threshold, in binary64 as the source computes it.  The
    samples are those of [new Int16Array(buffer.buffer)]: the whole
    [ArrayBuffer] behind the buffer, not only the buffer's own bytes. *)
Definition detectVoiceActivity (buf : NodeBuffer) : result bool :=
  match Int16Array (arrayBuffer buf) with
  | Throw e => Throw e
  | Ok samples =>
      let total :=
        fold_left (fun sum sample =>
                     (sum + number_of_Z sample * number_of_Z sample)%float)
                  samples (number_of_Z 0) in
      let rms :=
        PrimFloat.sqrt (total / number_of_Z (Z.of_nat (List.length samples)))%float in
      Ok (PrimFloat.ltb SILENCE_THRESHOLD rms)
  end.

Definition resetAudioState (_ : AudioState) : AudioState :=
  {| isRecording := false; buffer := []; silenceCount := 0 |}.

(** The state update of the chunk loop once a chunk has been decoded and
    classified (the [if (isVoiceActive) ... else if (audioState.isRecording)]
    statement).  The second component is the array handed to
    [Buffer.concat] when the accumulated audio is sent for transcription. *)
Definition ingest (st : AudioState) (buf : Buffer) (isVoiceActive : bool)
  : AudioState * option (list Buffer) :=
  if isVoiceActive then
    ({| isRecording := true;
        buffer := buffer st ++ [buf];
        silenceCount := 0 |}, None)
  else if isRecording st then
    let st1 := {| isRecording := isRecording st;
                  buffer := buffer st ++ [buf];
                  silenceCount := S (silenceCount st) |} in
    if (MIN_SILENCE_FRAMES <=? silenceCount st1)%nat then
      (resetAudioState st1,
       if (MIN_VOICE_FRAMES <? List.length (buffer st1))%nat
       then Some (buffer st1) else None)
    else (st1, None)
  else (st, None).

(** Feeding classified frames one after the other; the result lists the
    flushed frame arrays in the order they were flushed. *)
Fixpoint feed (st : AudioState) (frames : list (Buffer * bool))
  : AudioState * list (list Buffer) :=
  match frames with
  | [] => (st, [])
  | (buf, v) :: rest =>
      let '(st1, out) := ingest st buf v in
      let '(st2, outs) := feed st1 rest in
      (st2, match out with Some fr => fr :: outs | None => outs end)
  end.

(** Frames that [detectVoiceActivity] answered [true], respectively
    [false], for. *)
Definition voicedFrames (bufs : list Buffer) : list (Buffer * bool) :=
  map (fun b => (b, true)) bufs.

Definition silentFrames (bufs : list Buffer) : list (Buffer * bool) :=
  map (fun b => (b, false)) bufs.

(** The utterance buffers the flushed arrays become. *)
Definition utterances (flushed : list (list Buffer)) : list Buffer :=
  map Buffer_concat flushed.

(** States the detector can be in. *)
Inductive reachable : AudioState -> Prop :=
| reachable_init : reachable audioState0
| reachable_step st buf v :
    reachable st -> reachable (fst (ingest st buf v)).

(** What holds of the state between two loop iterations. *)
Definition vadInvariant (st : AudioState) : Prop :=
  (isRecording st = false -> buffer st = [] /\ silenceCount st = 0%nat)
  /\ (silenceCount st <= List.length (buffer st))%nat
  /\ (silenceCount st < MIN_SILENCE_FRAMES)%nat.

(** *** Message guards *)

Definition prop (a : value) (p : string) : result bool :=
  if jstype_eqb (typeof a) TObject then
    (v <- get a p ;; Ok (jstype_eqb (typeof v) TObject))%js
  else Ok false.

Definition isServerContentMessage (a : value) : result bool :=
  prop a "serverContent".

Definition isModelTurn (a : value) : result bool :=
  (v <- get a "modelTurn" ;; Ok (jstype_eqb (typeof v) TObject))%js.

Definition isTurnComplete (a : value) : result bool :=
  (v <- get a "turnComplete" ;; Ok (jstype_eqb (typeof v) TBoolean))%js.

(** [isInterrupted] returns the member itself; its callers branch on it. *)
Definition isInterrupted (a : value) : result bool :=
  (v <- get a "interrupted" ;; Ok (truthy v))%js.

(** The filter callback [p => p.inlineData?.mimeType.startsWith("audio/pcm")]. *)
Definition isAudioPart (p : json) : result bool :=
  (inlineData <- get (Some p) "inlineData" ;;
   match inlineData with
   | None | Some JNull => Ok false
   | Some _ =>
       mimeType <- get inlineData "mimeType" ;;
       match mimeType with
       | Some (JStr m) => Ok (startsWith m "audio/pcm")
       | _ => Throw TypeError
       end
   end)%js.

(** [Array.prototype.filter] with a callback that may throw. *)
Fixpoint filter_r (f : json -> result bool) (l : list json) : result (list json) :=
  match l with
  | [] => Ok []
  | x :: rest =>
      (keep <- f x ;;
       kept <- filter_r f rest ;;
       Ok (if keep then x :: kept else kept))%js
  end.

(** [serverContent.modelTurn.parts.filter(...)], from the member access
    on: only an array has a [filter] to call. *)
Definition audioPartsOf (serverContent : value) : result (list json * list json) :=
  (modelTurn <- get serverContent "modelTurn" ;;
   parts <- get modelTurn "parts" ;;
   match parts with
   | Some (JArr ps) => audio <- filter_r isAudioPart ps ;; Ok (ps, audio)
   | _ => Throw TypeError
   end)%js.

(** *** Sockets and what the server does to them *)

Definition Sock := nat.   (* a socket accepted from a browser *)
Definition Conn := nat.   (* a socket opened towards the model service *)

(** Observable actions, in the order the server performs them.  Console
    output is not part of the model. *)
Inductive effect : Type :=
| NewWebSocket (c : Conn)                   (* [new WebSocket(url, ...)] *)
| UpstreamSend (c : Conn) (frame : json)    (* [clientWs.send(JSON.stringify(frame))] *)
| CloseUpstream (c : Conn)                  (* [clientWs.close()] *)
| Recognize (audio : Buffer)                (* [speechClient.recognize] *)
| DownstreamSend (ws : Sock) (frame : json) (* [serverWs.send(JSON.stringify(frame))] *).

(** The module-level variables: [audioState], [serverWs] ([None] until the
    first upgrade assigns it), and the sockets whose ["message"] listener
    is installed and which have not closed. *)
Record Server : Type := mkServer {
  audioState : AudioState;
  serverWs : option Sock;
  sessions : list Sock
}.

(** [const clientWs = new WebSocket(...)] is evaluated once, as the module
    loads. *)
Definition clientWs : Conn := 0%nat.

Definition boot : Server * list effect :=
  ({| audioState := audioState0; serverWs := None; sessions := [] |},
   [NewWebSocket clientWs]).

Definition withAudioState (s : Server) (st : AudioState) : Server :=
  {| audioState := st; serverWs := serverWs s; sessions := sessions s |}.

(** The object literal [{ realtimeInput: { mediaChunks: chunks } }] as
    [JSON.stringify] renders it: an [undefined] member is left out. *)
Definition realtimeInputMessage (chunks : value) : json :=
  JObj [("realtimeInput"%string,
         JObj match chunks with
              | Some c => [("mediaChunks"%string, c)]
              | None => []
              end)].

Definition transcriptionMessage (text : string) : json :=
  JObj [("type"%string, JStr "transcription"); ("text"%string, JStr text)].

Definition modelTurnMessage (parts : list json) : json :=
  JObj [("modelTurn"%string, JObj [("parts"%string, JArr parts)])].

(** A batch as a browser sends it:
    [{ realtimeInput: { mediaChunks: [...] } }]. *)
Definition clientBatch (chunks : list json) : json :=
  JObj [("realtimeInput"%string, JObj [("mediaChunks"%string, JArr chunks)])].

(** The setup frame the ["open"] listener of [clientWs] sends. *)
Definition model : string :=
  "projects/sandbox-morimoto-s1/locations/us-central1/publishers/google/models/gemini-2.0-flash-exp".

Definition systemInstruction : string :=
  "            		あなたはSIerの優秀なエンジニアです。					あなたはクライアントに対して、ヒアリングを行います。					ヒアリング内容は、クライアントが作りたいと考えているシステムについてです。             		以下が明確になるまで、ヒアリングを続けてください。            		- だれが使うシステムなのか             		- どんなときに使われるシステムなのか             		- どんな機能が必要なのか 										## ヒアリングルール 					- あいまいな点があった場合は深堀りして聞いてください。					-              		".

Definition setupMessage : json :=
  JObj [("setup"%string,
         JObj [("model"%string, JStr model);
               ("systemInstruction"%string,
                JObj [("parts"%string,
                       JArr [JObj [("text"%string, JStr systemInstruction)]])]);
               ("generationConfig"%string,
                JObj [("responseModalities"%string, JStr "audio")])])].

(** [parsed.realtimeInput.mediaChunks]. *)
Definition mediaChunksOf (parsed : json) : result value :=
  (realtimeInput <- get (Some parsed) "realtimeInput" ;;
   get realtimeInput "mediaChunks")%js.

(** How the validation and decoding part of one loop iteration ends. *)
Inductive ChunkOutcome : Type :=
| Invalid                                   (* "Invalid chunk format", [continue] *)
| Unsupported                               (* "Unsupported audio format", [continue] *)
| Threw (e : exn)                           (* caught: "Error processing chunk" *)
| Frame (buf : Buffer) (isVoiceActive : bool).


(** What [for (const chunk of chunks)] iterates over: the items of an
    array, the characters of a string, and a [TypeError] otherwise. *)
Definition iterate (chunks : value) : result (list json) :=
  match chunks with
  | Some (JArr items) => Ok items
  | Some (JStr str) =>
      Ok (map (fun c => JStr (String c EmptyString)) (list_ascii_of_string str))
  | _ => Throw TypeError
  end.

(** The same statement as far as the [await]: the state after the push,
    and whether the loop now calls [processSpeechToText] and waits for it.
    [resetAudioState] has not run yet when it does. *)
Definition advance (st : AudioState) (buf : Buffer) (isVoiceActive : bool)
  : AudioState * bool :=
  if isVoiceActive then
    ({| isRecording := true;
        buffer := buffer st ++ [buf];
        silenceCount := 0 |}, false)
  else if isRecording st then
    let st1 := {| isRecording := isRecording st;
                  buffer := buffer st ++ [buf];
                  silenceCount := S (silenceCount st) |} in
    if (MIN_SILENCE_FRAMES <=? silenceCount st1)%nat then
      if (MIN_VOICE_FRAMES <? List.length (buffer st1))%nat
      then (st1, true)
      else (resetAudioState st1, false)
    else (st1, false)
  else (st, false).

(** A ["message"] handler waiting at [await processSpeechToText(...)]:
    the audio it sent and the chunks its loop has still to go through. *)
Record Suspended : Type := mkSuspended {
  audio : Buffer;
  remaining : list json
}.

(** The state of [clientWs] as the socket library keeps it. *)
Inductive ReadyState : Type := CONNECTING | OPEN | CLOSING | CLOSED.

Section Handlers.

(** The two library calls the handlers make on data: [Buffer.from(data,
    "base64")] and the transcription request; the latter yields the joined
    transcript, which may be [undefined]. *)
Variable Buffer_from : value -> result NodeBuffer.
Variable recognize : Buffer -> result (option string).

(** The loop body up to and including [detectVoiceActivity(buffer)]:
    every statement of the [try] block that can throw or [continue]
    comes before the first assignment to [audioState]. *)
Definition decodeChunk (chunk : json) : ChunkOutcome :=
  if negb (truthy (Some chunk))
     || negb (jstype_eqb (typeof (Some chunk)) TObject)
     || negb (has "data" chunk)
     || negb (has "mimeType" chunk)
  then Invalid
  else
    match (mimeType <- get (Some chunk) "mimeType" ;;
           includes mimeType "audio/pcm")%js with
    | Throw e => Threw e
    | Ok false => Unsupported
    | Ok true =>
        match (data <- get (Some chunk) "data" ;;
               buf <- Buffer_from data ;;
               isVoiceActive <- detectVoiceActivity buf ;;
               Ok (bytes buf, isVoiceActive))%js with
        | Throw e => Threw e
        | Ok (buf, isVoiceActive) => Frame buf isVoiceActive
        end
    end.

(** [processSpeechToText] from the answer of the service on: its own
    [try]/[catch] swallows a failed request and a send on an unassigned
    [serverWs] alike.  The socket is the one [serverWs] holds by then. *)
Definition sendTranscription (s : Server) (audioBuffer : Buffer) : list effect :=
  match recognize audioBuffer with
  | Ok (Some transcription) =>
      if truthy (Some (JStr transcription)) then
        match serverWs s with
        | Some ws => [DownstreamSend ws (transcriptionMessage transcription)]
        | None => []
        end
      else []
  | _ => []
  end.

(** [processSpeechToText] when the service answers at once. *)
Definition processSpeechToText (s : Server) (audioBuffer : Buffer) : list effect :=
  Recognize audioBuffer :: sendTranscription s audioBuffer.

(** One iteration of the chunk loop. *)
Definition processChunk (s : Server) (chunk : json) : Server * list effect :=
  match decodeChunk chunk with
  | Frame buf isVoiceActive =>
      let '(st, flushed) := ingest (audioState s) buf isVoiceActive in
      (withAudioState s st,
       match flushed with
       | Some frames => processSpeechToText s (Buffer_concat frames)
       | None => []
       end)
  | _ => (s, [])
  end.

Fixpoint forEachChunk (s : Server) (chunks : list json) : Server * list effect :=
  match chunks with
  | [] => (s, [])
  | chunk :: rest =>
      let '(s1, e1) := processChunk s chunk in
      let '(s2, e2) := forEachChunk s1 rest in
      (s2, e1 ++ e2)
  end.

(** [serverWs.on("message", ...)] on the value [JSON.parse] returned
    (the socket library delivers buffers, never a [Blob]); the upstream
    socket is taken to accept the send. *)
Definition onDownstreamMessage (s : Server) (parsed : json)
  : Server * list effect * result unit :=
  match mediaChunksOf parsed with
  | Throw e => (s, [], Throw e)
  | Ok chunks =>
      let sent := UpstreamSend clientWs (realtimeInputMessage chunks) in
      match iterate chunks with
      | Throw e => (s, [sent], Throw e)
      | Ok items =>
          let '(s1, effects) := forEachChunk s items in
          (s1, sent :: effects, Ok tt)
      end
  end.

(** [clientWs.on("message", ...)] on the value [JSON.parse] returned. *)
Definition onUpstreamMessage (s : Server) (response : json)
  : list effect * result unit :=
  match isServerContentMessage (Some response) with
  | Throw e => ([], Throw e)
  | Ok false => ([], Ok tt)
  | Ok true =>
      match (serverContent <- get (Some response) "serverContent" ;;
             interrupted <- isInterrupted serverContent ;;
             if interrupted then Ok None
             else
               _ <- isTurnComplete serverContent ;;
               modelTurn <- isModelTurn serverContent ;;
               if modelTurn then
                 parts <- audioPartsOf serverContent ;;
                 Ok (Some (modelTurnMessage (snd parts)))
               else Ok None)%js with
      | Throw e => ([], Throw e)
      | Ok None => ([], Ok tt)
      | Ok (Some content) =>
          match serverWs s with
          | Some ws => ([DownstreamSend ws content], Ok tt)
          | None => ([], Throw TypeError)
          end
      end
  end.

(** *** Handlers that wait *)

(** The chunk loop as far as its first [await]: it ends, or it has sent
    the buffered audio for transcription and waits, the state not yet
    reset. *)
Fixpoint loopUntilAwait (s : Server) (chunks : list json)
  : Server * list effect * option Suspended :=
  match chunks with
  | [] => (s, [], None)
  | chunk :: rest =>
      match decodeChunk chunk with
      | Frame buf isVoiceActive =>
          let '(st, waits) := advance (audioState s) buf isVoiceActive in
          if waits then
            (withAudioState s st,
             [Recognize (Buffer_concat (buffer st))],
             Some {| audio := Buffer_concat (buffer st); remaining := rest |})
          else loopUntilAwait (withAudioState s st) rest
      | _ => loopUntilAwait s rest
      end
  end.

(** The handler goes on when the service has answered: the transcription
    is sent to the socket [serverWs] holds now, [resetAudioState] clears
    whatever [audioState] holds now, and the loop continues. *)
Definition resume (s : Server) (t : Suspended)
  : Server * list effect * option Suspended :=
  let '(s1, effects, next) :=
    loopUntilAwait (withAudioState s (resetAudioState (audioState s))) (remaining t) in
  (s1, sendTranscription s (audio t) ++ effects, next).

(** [serverWs.on("message", ...)] as far as its first [await] on the
    service.  [clientWs.send] throws while the socket is still
    connecting, and only then. *)
Definition onDownstreamMessageUntilAwait
  (s : Server) (upstream : ReadyState) (parsed : json)
  : Server * list effect * result (option Suspended) :=
  match mediaChunksOf parsed with
  | Throw e => (s, [], Throw e)
  | Ok chunks =>
      match upstream with
      | CONNECTING =>
          (s, [], Throw (Error "WebSocket is not open: readyState 0 (CONNECTING)"))
      | _ =>
          let sent := UpstreamSend clientWs (realtimeInputMessage chunks) in
          match iterate chunks with
          | Throw e => (s, [sent], Throw e)
          | Ok items =>
              let '(s1, effects, next) := loopUntilAwait s items in
              (s1, sent :: effects, Ok next)
          end
      end
  end.

(** *** The server as a transition system *)

Inductive input : Type :=
| Upgrade (ws : Sock)                          (* a browser connection is accepted *)
| DownstreamMessage (ws : Sock) (parsed : json)
| DownstreamClose (ws : Sock)
| UpstreamMessage (parsed : json)
| UpstreamOpen                                 (* [clientWs.on("open", ...)] *)
| UpstreamClose                                (* [clientWs.on("close", ...)] *)
| UpstreamError                                (* [clientWs.on("error", ...)] *).

(** What the listener for an input does when every transcription it asks
    for is answered at once, with the way it ends: both ["message"]
    listeners are [async] functions without a [catch], so a throw is a
    rejection nobody handles. *)
Definition handle (s : Server) (i : input) : Server * list effect * result unit :=
  match i with
  | Upgrade ws =>
      ({| audioState := audioState s;
          serverWs := Some ws;
          sessions := ws :: sessions s |}, [], Ok tt)
  | DownstreamMessage ws parsed =>
      if existsb (Nat.eqb ws) (sessions s)
      then onDownstreamMessage s parsed
      else (s, [], Ok tt)
  | DownstreamClose ws =>
      ({| audioState := audioState s;
          serverWs := serverWs s;
          sessions := List.remove Nat.eq_dec ws (sessions s) |}, [], Ok tt)
  | UpstreamMessage parsed =>
      let '(effects, outcome) := onUpstreamMessage s parsed in (s, effects, outcome)
  | UpstreamOpen => (s, [UpstreamSend clientWs setupMessage], Ok tt)
  | UpstreamClose => (s, [CloseUpstream clientWs], Ok tt)
  | UpstreamError => (s, [], Ok tt)
  end.


(** Inputs handled one after the other, each transcription answered
    before the next input: the executions in which no two handlers
    overlap.  An unhandled rejection ends the process (Node 20), so
    nothing is handled after a listener has thrown. *)
Fixpoint run (s : Server) (inputs : list input) : Server * list effect :=
  match inputs with
  | [] => (s, [])
  | i :: rest =>
      match handle s i with
      | (s1, e1, Ok _) =>
          let '(s2, e2) := run s1 rest in
          (s2, e1 ++ e2)
      | (s1, e1, Throw _) => (s1, e1)
      end
  end.

(** *** The process, with handlers that overlap *)

(** The module-level state, the state of the upstream socket, the
    handlers waiting for the transcription service, and whether the
    process has ended. *)
Record Process : Type := mkProcess {
  server : Server;
  upstream : ReadyState;
  suspended : list Suspended;
  exited : bool
}.

(** What happens to the process: a socket event is delivered, or the
    transcription service answers the [k]-th waiting handler. *)
Inductive occurrence : Type :=
| Arrives (i : input)
| Answers (k : nat).

Definition waiting (next : option Suspended) : list Suspended :=
  match next with
  | Some t => [t]
  | None => []
  end.

Definition threw {A} (outcome : result A) : bool :=
  match outcome with
  | Ok _ => false
  | Throw _ => true
  end.

(** One thing happens.  Each socket event is delivered in a turn of the
    event loop of its own: a listener runs as far as its first wait on
    the transcription service before anything else is looked at (the
    [await] on [JSON.parse] at its start yields to nothing that touches
    the state), and a listener that throws ends the process before the
    next event is delivered. *)
Definition deliver (p : Process) (o : occurrence) : Process * list effect :=
  if exited p then (p, [])
  else
    match o with
    | Answers k =>
        match nth_error (suspended p) k with
        | None => (p, [])
        | Some t =>
            let '(s1, effects, next) := resume (server p) t in
            ({| server := s1;
                upstream := upstream p;
                suspended := firstn k (suspended p) ++ skipn (S k) (suspended p)
                             ++ waiting next;
                exited := false |}, effects)
        end
    | Arrives (DownstreamMessage ws parsed) =>
        if existsb (Nat.eqb ws) (sessions (server p)) then
          let '(s1, effects, outcome) :=
            onDownstreamMessageUntilAwait (server p) (upstream p) parsed in
          ({| server := s1;
              upstream := upstream p;
              suspended := suspended p
                           ++ match outcome with
                              | Ok next => waiting next
                              | Throw _ => []
                              end;
              exited := threw outcome |}, effects)
        else (p, [])
    | Arrives i =>
        let '(s1, effects, outcome) := handle (server p) i in
        ({| server := s1;
            upstream := match i with
                        | UpstreamOpen => OPEN
                        | UpstreamError => CLOSING
                        | UpstreamClose => CLOSED
                        | _ => upstream p
                        end;
            suspended := suspended p;
            exited := threw outcome |}, effects)
    end.

Fixpoint deliverAll (p : Process) (os : list occurrence) : Process * list effect :=
  match os with
  | [] => (p, [])
  | o :: rest =>
      let '(p1, e1) := deliver p o in
      let '(p2, e2) := deliverAll p1 rest in
      (p2, e1 ++ e2)
  end.

(** The process as the module has loaded: the upstream socket has been
    created and is connecting. *)
Definition launch : Process * list effect :=
  ({| server := fst boot; upstream := CONNECTING; suspended := []; exited := false |},
   snd boot).

(** A whole execution: the module loads, then things happen. *)
Definition execute (os : list occurrence) : Process * list effect :=
  let '(p0, e0) := launch in
  let '(p, e) := deliverAll p0 os in
  (p, e0 ++ e).

(** What holds of the detector's state between any two things that
    happen, handlers waiting or not. *)
Definition steady (st : AudioState) : Prop :=
  (isRecording st = false -> buffer st = [] /\ silenceCount st = 0%nat)
  /\ (isRecording st = true -> (silenceCount st < List.length (buffer st))%nat).

(** A silence count that has reached MIN_SILENCE_FRAMES means a handler
    is waiting for a transcription. *)
Definition composed (p : Process) : Prop :=
  steady (audioState (server p))
  /\ ((MIN_SILENCE_FRAMES <= silenceCount (audioState (server p)))%nat ->
      suspended p <> []).

(** A process in which nothing waits and the upstream socket is open. *)
Definition settled (s : Server) : Process :=
  {| server := s; upstream := OPEN; suspended := []; exited := false |}.

End Handlers.

(** Projections of a list of effects. *)
Definition upstreamsOpened (effects : list effect) : list Conn :=
  flat_map (fun e => match e with NewWebSocket c => [c] | _ => [] end) effects.

Definition upstreamTargets (effects : list effect) : list Conn :=
  flat_map (fun e => match e with UpstreamSend c _ => [c] | _ => [] end) effects.

Definition recognized (effects : list effect) : list Buffer :=
  flat_map (fun e => match e with Recognize a => [a] | _ => [] end) effects.

(** Effects that neither open an upstream socket nor send on one other
    than [clientWs]. *)
Definition tame (effects : list effect) : Prop :=
  upstreamsOpened effects = [] /\ Forall (eq clientWs) (upstreamTargets effects).

(** One upstream connection for each live browser session: what a
    one-to-one pairing of the two kinds of socket would require of an
    execution. *)
Definition dedicatedUpstreams (outcome : Process * list effect) : Prop :=
  List.length (upstreamsOpened (snd outcome))
  = List.length (sessions (server (fst outcome))).

End Backend.

(** ** The event-emitting client (lib/multimodal-live-client.ts) *)

Module LiveClient.

Import Backend.

(** What the client does, in order: events handed to its listeners, and
    operations on its socket.  A log entry is kept by its type. *)
Inductive event : Type :=
| EmitOpen
| EmitLog (type : string)
| EmitClose
| EmitAudio (data : Buffer)
| EmitContent (content : json)
| EmitInterrupted
| EmitSetupComplete
| EmitTurnComplete
| EmitToolCall (toolCall : value)
| EmitToolCallCancellation (cancellation : value)
| WsNew (ws : Sock)
| WsSend (ws : Sock) (frame : json)
| WsClose (ws : Sock).

(** A computation that emits events and may throw. *)
Definition action (A : Type) : Type := list event * result A.

Definition ret {A} (a : A) : action A := ([], Ok a).
Definition emit (e : event) : action unit := ([e], Ok tt).
Definition lift {A} (r : result A) : action A := ([], r).

Definition andThen {A B} (m : action A) (k : A -> action B) : action B :=
  match m with
  | (es, Ok a) => let '(es', r) := k a in (es ++ es', r)
  | (es, Throw e) => (es, Throw e)
  end.

Declare Scope action_scope.
Delimit Scope action_scope with action.
Notation "x <- c ;; k" := (andThen c (fun x => k))
  (at level 61, c at next level, right associativity) : action_scope.
Notation "c ;;; k" := (andThen c (fun _ => k))
  (at level 61, right associativity) : action_scope.

Definition when (b : bool) (m : action unit) : action unit :=
  if b then m else ret tt.

(** [this.log(type, message)]. *)
Definition log (type : string) : action unit := emit (EmitLog type).

(** Modelled from the spec: the guards [isToolCallMessage],
    [isToolCallCancellationMessage] and [isSetupCompleteMessage] are
    imported from multimodal-live-types, which is not among the sources;
    the spec dispatches on the presence of the [toolCall],
    [toolCallCancellation] and [setupComplete] keys, tested here the way
    the back end's [prop] tests [serverContent]. *)
Definition isToolCallMessage (a : value) : result bool := prop a "toolCall".
Definition isToolCallCancellationMessage (a : value) : result bool :=
  prop a "toolCallCancellation".
Definition isSetupCompleteMessage (a : value) : result bool :=
  prop a "setupComplete".

(** The remaining guards are imported from the same file under the names
    the back end defines them with. *)
Definition isServerContenteMessage := isServerContentMessage.

(** [p => p.inlineData?.data] on a part the filter kept. *)
Definition inlineDataOf (p : json) : result value :=
  (inlineData <- get (Some p) "inlineData" ;;
   match inlineData with
   | None | Some JNull => Ok None
   | Some _ => get inlineData "data"
   end)%js.

Fixpoint map_r {A B} (f : A -> result B) (l : list A) : result (list B) :=
  match l with
  | [] => Ok []
  | x :: rest => (y <- f x ;; ys <- map_r f rest ;; Ok (y :: ys))%js
  end.

Definition keeps (f : json -> result bool) (p : json) : bool :=
  match f p with
  | Ok true => true
  | _ => false
  end.

(** [difference(parts, audioParts)]: lodash compares by identity, the
    elements of a parsed array are pairwise distinct values, and only an
    object can pass the filter, so what is removed is exactly what the
    filter kept. *)
Definition difference (parts : list json) : list json :=
  filter (fun p => negb (keeps isAudioPart p)) parts.

(** The client: the socket it sends on ([null] unless open) and the
    configuration of the last [connect]. *)
Record Client : Type := mkClient {
  ws : option Sock;
  config : value
}.

(** A client as the constructor leaves it. *)
Definition newClient : Client := {| ws := None; config := None |}.

(** A media chunk as callers of the client pass it
    ([GenerativeContentBlob]). *)
Record GenerativeContentBlob : Type := mkBlob {
  mimeType : string;
  data : string
}.

Definition blobToJson (b : GenerativeContentBlob) : json :=
  JObj [("mimeType"%string, JStr (mimeType b)); ("data"%string, JStr (data b))].

Section Client.

(** [base64ToArrayBuffer] comes from lib/utils, outside the sources. *)
Variable base64ToArrayBuffer : value -> result Buffer.

(** [_sendDirect]: the frame is the value given to [JSON.stringify]. *)
Definition _sendDirect (c : Client) (request : json) : action unit :=
  match ws c with
  | None => lift (Throw (Error "WebSocket is not connected"))
  | Some w => emit (WsSend w request)
  end.

Definition sendRealtimeInput (c : Client) (chunks : list GenerativeContentBlob)
  : action unit :=
  let hasAudio := existsb (fun ch => str_includes (mimeType ch) "audio") chunks in
  let data := JObj [("realtimeInput"%string,
                     JObj [("mediaChunks"%string, JArr (map blobToJson chunks))])] in
  (_sendDirect c data ;;;
   log "client.realtimeInput")%action.

Definition sendToolResponse (c : Client) (toolResponse : json) : action unit :=
  let message := JObj [("toolResponse"%string, toolResponse)] in
  (_sendDirect c message ;;;
   log "client.toolResponse")%action.

Definition send (c : Client) (parts : json) (turnComplete : bool) : action unit :=
  let partsArray := match parts with JArr _ => parts | _ => JArr [parts] end in
  let content := JObj [("role"%string, JStr "user"); ("parts"%string, partsArray)] in
  let clientContentRequest :=
    JObj [("clientContent"%string,
           JObj [("turns"%string, JArr [content]);
                 ("turnComplete"%string, JBool turnComplete)])] in
  (_sendDirect c clientContentRequest ;;;
   log "client.send")%action.

(** [disconnect(ws?)]: an argument is honoured only while it is the
    current socket. *)
Definition disconnect (c : Client) (arg : option Sock)
  : Client * action bool :=
  let same := match arg, ws c with
              | None, _ => true
              | Some w, Some w' => Nat.eqb w w'
              | Some _, None => false
              end in
  match ws c with
  | Some w' =>
      if same then
        ({| ws := None; config := config c |},
         (emit (WsClose w') ;;; log "client.close," ;;; ret true)%action)
      else (c, ret false)
  | None => (c, ret false)
  end.

(** [connect(config)] up to the promise it returns: the configuration is
    stored and a socket is created; [this.ws] is not touched. *)
Definition connect (c : Client) (cfg : json) (w : Sock) : Client * action unit :=
  ({| ws := ws c; config := Some cfg |}, emit (WsNew w)).

(** The ["open"] listener of the socket [w] created by [connect]. *)
Definition onOpen (c : Client) (w : Sock) : Client * action unit :=
  match config c with
  | Some cfg =>
      if truthy (config c) then
        let c1 := {| ws := Some w; config := config c |} in
        (c1,
         (log "client.open" ;;;
          emit EmitOpen ;;;
          _sendDirect c1 (JObj [("setup"%string, cfg)]) ;;;
          log "client.send")%action)
      else (c, ret tt)
  | None => (c, ret tt)
  end.

(** The ["error"] listener, in place until the socket opens. *)
Definition onError (c : Client) (w : Sock) : Client * action unit :=
  let '(c1, a) := disconnect c (Some w) in
  (c1, (a ;;; log "server.error")%action).

(** The ["close"] listener, installed when the socket opens. *)
Definition onClose (c : Client) (w : Sock) : Client * action unit :=
  let '(c1, a) := disconnect c (Some w) in
  (c1, (a ;;; log "server.close" ;;; emit EmitClose)%action).

(** The loop over the decoded audio payloads. *)
Fixpoint emitAudio (base64s : list value) : action unit :=
  match base64s with
  | [] => ret tt
  | b64 :: rest =>
      (when (truthy b64)
         (data <- lift (base64ToArrayBuffer b64) ;;
          emit (EmitAudio data) ;;;
          log "server.audio") ;;;
       emitAudio rest)%action
  end.

(** The [isModelTurn] branch of [receive]. *)
Definition receiveModelTurn (serverContent : value) : action unit :=
  (found <- lift (audioPartsOf serverContent) ;;
   let '(parts, audioParts) := found in
   base64s <- lift (map_r inlineDataOf audioParts) ;;
   let otherParts := difference parts in
   emitAudio base64s ;;;
   match otherParts with
   | [] => ret tt
   | _ =>
       emit (EmitContent (modelTurnMessage otherParts)) ;;;
       log "server.content"
   end)%action.

(** The [isServerContenteMessage] branch of [receive]. *)
Definition receiveServerContent (response : value) : action unit :=
  (serverContent <- lift (get response "serverContent") ;;
   interrupted <- lift (isInterrupted serverContent) ;;
   if interrupted then
     log "receive.serverContent" ;;;
     emit EmitInterrupted
   else
     turnComplete <- lift (isTurnComplete serverContent) ;;
     when turnComplete (log "server.send" ;;; emit EmitTurnComplete) ;;;
     modelTurn <- lift (isModelTurn serverContent) ;;
     when modelTurn (receiveModelTurn serverContent))%action.

(** [receive], on the value [blobToJSON] resolved to. *)
Definition receive (response : json) : action unit :=
  let r := Some response in
  (toolCall <- lift (isToolCallMessage r) ;;
   if toolCall then
     log "server.toolCall" ;;;
     payload <- lift (get r "toolCall") ;;
     emit (EmitToolCall payload)
   else
     cancellation <- lift (isToolCallCancellationMessage r) ;;
     if cancellation then
       log "receive.toolCallCancellation" ;;;
       payload <- lift (get r "toolCallCancellation") ;;
       emit (EmitToolCallCancellation payload)
     else
       setupComplete <- lift (isSetupCompleteMessage r) ;;
       when setupComplete (log "server.send" ;;; emit EmitSetupComplete) ;;;
       serverContent <- lift (isServerContenteMessage r) ;;
       when serverContent (receiveServerContent r))%action.

End Client.

(** Parts as the message contract types them: text, or inline data with
    a MIME type and a base64 payload. *)
Inductive Part : Type :=
| TextPart (text : string)
| InlineDataPart (mime : string) (payload : string).

Definition partToJson (p : Part) : json :=
  match p with
  | TextPart t => JObj [("text"%string, JStr t)]
  | InlineDataPart m d =>
      JObj [("inlineData"%string,
             JObj [("mimeType"%string, JStr m); ("data"%string, JStr d)])]
  end.

Definition isAudio (p : Part) : bool :=
  match p with
  | TextPart _ => false
  | InlineDataPart m _ => startsWith m "audio/pcm"
  end.

(** [{ serverContent: { ... } }]. *)
Definition serverContentMessage (members : list (string * json)) : json :=
  JObj [("serverContent"%string, JObj members)].

Definition turnCompleteMember : string * json := ("turnComplete"%string, JBool true).

Definition modelTurnMember (parts : list Part) : string * json :=
  ("modelTurn"%string, JObj [("parts"%string, JArr (map partToJson parts))]).

(** What a list of parts is expected to produce: one audio event for each
    audio part with a non-empty payload, in order, then one content event
    carrying the other parts if there are any. *)
Definition audioEvents (decode : string -> Buffer) (parts : list Part) : list event :=
  flat_map (fun p =>
              match p with
              | InlineDataPart m d =>
                  if startsWith m "audio/pcm" && negb (String.eqb d "")
                  then [EmitAudio (decode d); EmitLog "server.audio"]
                  else []
              | TextPart _ => []
              end) parts.

Definition contentEvents (parts : list Part) : list event :=
  match filter (fun p => negb (isAudio p)) parts with
  | [] => []
  | others =>
      [EmitContent (modelTurnMessage (map partToJson others)); EmitLog "server.content"]
  end.

(** Projections of a list of events. *)
Definition carriesOutput (e : event) : bool :=
  match e with
  | EmitAudio _ | EmitContent _ => true
  | _ => false
  end.

Definition isTransmission (e : event) : bool :=
  match e with
  | WsSend _ _ => true
  | _ => false
  end.

End LiveClient.

(** ** Concrete data for examples *)

Module Samples.

Import Backend LiveClient.

(** A base64 decoder to stand for the runtime's: characters outside the
    alphabet are passed over and decoding stops at the padding. *)
Definition sextet (c : ascii) : option N :=
  let n := N_of_ascii c in
  if ((65 <=? n) && (n <=? 90))%N then Some (n - 65)%N
  else if ((97 <=? n) && (n <=? 122))%N then Some (n - 71)%N
  else if ((48 <=? n) && (n <=? 57))%N then Some (n + 4)%N
  else if ((n =? 43) || (n =? 45))%N then Some 62%N
  else if ((n =? 47) || (n =? 95))%N then Some 63%N
  else None.

Fixpoint sextets (s : string) : list N :=
  match s with
  | EmptyString => []
  | String c rest =>
      if Ascii.eqb c "="%char then []
      else match sextet c with
           | Some n => n :: sextets rest
           | None => sextets rest
           end
  end.

Definition octet (n : N) : byte :=
  match Byte.of_N (n mod 256) with
  | Some b => b
  | None => x00
  end.

Fixpoint octets (l : list N) : Buffer :=
  match l with
  | a :: b :: c :: d :: rest =>
      octet (a * 4 + b / 16) :: octet (b * 16 + c / 4) :: octet (c * 64 + d)
      :: octets rest
  | [a; b; c] => [octet (a * 4 + b / 16); octet (b * 16 + c / 4)]
  | [a; b] => [octet (a * 4 + b / 16)]
  | _ => []
  end%N.

(** Decoding into an [ArrayBuffer] of its own, as [atob] and a fresh
    [Uint8Array] do on the browser side.  The examples decode strings
    only. *)
Definition base64ToArrayBuffer (data : value) : result Buffer :=
  match data with
  | Some (JStr s) => Ok (octets (sextets s))
  | _ => Throw TypeError
  end.

(** [Buffer.from(data, "base64")] on a string, allocated as Node 20 does
    (the image the server is built on).  The size is first estimated from
    the text, three bytes for four characters with up to two padding
    characters taken off.  An empty text gives an empty buffer; an
    estimate of [Buffer.poolSize >>> 1 = 4096] bytes or more gives a
    buffer with an [ArrayBuffer] of its own; anything shorter is written
    into the 8192-byte allocation pool at the pool's offset, and the
    buffer is a window on that pool, which holds whatever was there
    before.  [undefined], [null], a number and a boolean are refused with
    a [TypeError]; the examples pass strings only, and arrays and
    objects, which the runtime reads as lists of bytes, are left with the
    same outcome here. *)
Definition poolSize : nat := 8192.

Definition endsWithPadding (s : string) (n : nat) : bool :=
  match String.get (n - 1) s with
  | Some c => (0 <? n)%nat && Ascii.eqb c "="%char
  | None => false
  end.

Definition base64ByteLength (s : string) : nat :=
  let n := String.length s in
  let n := if endsWithPadding s n then (n - 1)%nat else n in
  let n := if (1 <? n)%nat && endsWithPadding s n then (n - 1)%nat else n in
  (n * 3 / 4)%nat.

Definition fromPool (pool : Buffer) (poolOffset : nat) (data : value)
  : result NodeBuffer :=
  match data with
  | Some (JStr s) =>
      let b := octets (sextets s) in
      if (String.length s =? 0)%nat then Ok (owned [])
      else if (poolSize / 2 <=? base64ByteLength s)%nat then Ok (owned b)
      else Ok {| bytes := b;
                 arrayBuffer := firstn poolOffset pool ++ b
                                ++ skipn (poolOffset + List.length b) pool |}
  | _ => Throw TypeError
  end.

(** The decoder of a server whose pool is new and holds zeros. *)
Definition Buffer_from : value -> result NodeBuffer :=
  fromPool (repeat x00 poolSize) 0.

(** A transcription service that always hears the same word. *)
Definition recognize (_ : Buffer) : result (option string) := Ok (Some "hai"%string).

Fixpoint repeatText (t : string) (n : nat) : string :=
  match n with
  | O => EmptyString
  | S n' => (t ++ repeatText t n')%string
  end.

(** Frames of 2049 samples, long enough to own their [ArrayBuffer]: one
    of amplitude 1000 and one of silence, with their base64 texts of 5464
    characters. *)
Definition loud : Buffer := List.concat (repeat [xe8; x03] 2049).
Definition quiet : Buffer := repeat x00 4098.

Definition loudText : string := repeatText "6APoA+gD" 683.
Definition quietText : string := repeatText "AAAAAAAA" 683.

(** Two samples of amplitude 1000, for the browser side. *)
Definition beep : Buffer := [xe8; x03; xe8; x03].

Definition pcmChunk (data : string) : json :=
  JObj [("mimeType"%string, JStr "audio/pcm;rate=16000"); ("data"%string, JStr data)].

Definition loudChunk : json := pcmChunk loudText.
Definition quietChunk : json := pcmChunk quietText.

(** Chunks the loop rejects: no [data] member, a JPEG, an odd number of
    bytes (4099, in an [ArrayBuffer] of their own), and a [null] MIME
    type. *)
Definition shapelessChunk : json := JObj [("mimeType"%string, JStr "audio/pcm")].
Definition jpegChunk : json :=
  JObj [("mimeType"%string, JStr "image/jpeg"); ("data"%string, JStr "AAAA")].
Definition oddChunk : json := pcmChunk (quietText ++ "AA==").
Definition nullTypeChunk : json :=
  JObj [("mimeType"%string, JNull); ("data"%string, JStr "AAAA")].

(** A server with one browser connected. *)
Definition oneClient : Server :=
  {| audioState := audioState0; serverWs := Some 1%nat; sessions := [1%nat] |}.

End Samples.

(** ** The microphone side (live-media-manager.js) *)

Module Recorder.

Import Codec.

Definition byte_of_Z (n : Z) : byte :=
  match Byte.of_N (Z.to_N (n mod 256)) with
  | Some b => b
  | None => x00
  end.

(** [view.setInt16(offset, value, true)]: the value as a 16-bit two's
    complement number, low byte first. *)
Definition setInt16 (value : Z) : Buffer :=
  let u := value mod 65536 in
  [byte_of_Z u; byte_of_Z (u / 256)].

(** The [ArrayBuffer] that [recordChunk] fills: two bytes for each
    element of [pcmData], in order. *)
Definition encodePCM (pcmData : list Z) : Buffer := flat_map setInt16 pcmData.

(** [LiveAudioInputManager], as far as its sample queue goes. *)
Record LiveAudioInputManager : Type := mkInputManager {
  pcmData : list Z
}.

(** The constructor leaves the queue empty. *)
Definition newInputManager : LiveAudioInputManager := {| pcmData := [] |}.

(** [onaudioprocess]: the block is converted and pushed onto the queue.
    The blocks have the 4096 samples [createScriptProcessor(4096, 1, 1)]
    asks for. *)
Definition onaudioprocess (m : LiveAudioInputManager) (inputData : list Q)
  : LiveAudioInputManager :=
  {| pcmData := pcmData m ++ float32ArrayToPCM16 inputData |}.

(** What happens to a connected microphone: a block of samples arrives,
    or the one-second timer fires. *)
Inductive micEvent : Type :=
| AudioProcess (inputData : list Q)
| Tick.

Section Recording.

(** The number of arguments the browser's engine accepts in one call made
    with [apply]; the language leaves it to the engine, and a call with
    more ends in a [RangeError]. *)
Variable argumentLimit : nat.

(** [recordChunk]: the queue is encoded, the bytes are turned into a
    string by [String.fromCharCode.apply(null, ...)], one argument for
    each byte, and only then is the chunk handed to
    [onNewAudioRecordingChunk] and the queue emptied.  With too many
    bytes the call throws and the queue stays as it is. *)
Definition recordChunk (m : LiveAudioInputManager)
  : LiveAudioInputManager * result Buffer :=
  let buffer := encodePCM (pcmData m) in
  if (argumentLimit <? List.length buffer)%nat
  then (m, Throw RangeError)
  else ({| pcmData := [] |}, Ok buffer).

(** A run of the recorder, with the chunks it hands over; an exception
    in the timer callback ends that callback only. *)
Fixpoint record (m : LiveAudioInputManager) (events : list micEvent)
  : LiveAudioInputManager * list Buffer :=
  match events with
  | [] => (m, [])
  | AudioProcess inputData :: rest => record (onaudioprocess m inputData) rest
  | Tick :: rest =>
      let '(m1, outcome) := recordChunk m in
      let '(m2, chunks) := record m1 rest in
      (m2, match outcome with
           | Ok chunk => chunk :: chunks
           | Throw _ => chunks
           end)
  end.

End Recording.

(** The samples captured over a run, converted, in order. *)
Definition captured (events : list micEvent) : list Z :=
  flat_map (fun e => match e with
                     | AudioProcess inputData => float32ArrayToPCM16 inputData
                     | Tick => []
                     end) events.

End Recorder.

(** ** Measures used in the statements *)

Module Measures.

Import Backend LiveClient.

Definition countSilent (frames : list (Buffer * bool)) : nat :=
  List.length (filter (fun f => negb (snd f)) frames).


Definition touchesSocket (e : event) : bool :=
  match e with
  | WsNew _ | WsSend _ _ | WsClose _ => true
  | _ => false
  end.

Definition transmissions (events : list event) : list (Sock * json) :=
  flat_map (fun e => match e with
                     | WsSend w frame => [(w, frame)]
                     | _ => []
                     end) events.

(** A computation none of whose events opens, writes to or closes a
    socket. *)
Definition socketFree {A} (m : action A) : Prop :=
  existsb touchesSocket (fst m) = false.


(** A chunk the loop turns into the given frame. *)
Definition frameOutcome (f : Buffer * bool) : ChunkOutcome := Frame (fst f) (snd f).

(** The frames a batch comes to, with the detector's verdicts: the
    chunks the loop leaves out are no part of it. *)
Definition framesOf (decode : json -> ChunkOutcome) (chunks : list json)
  : list (Buffer * bool) :=
  flat_map (fun c => match decode c with
                     | Frame buf v => [(buf, v)]
                     | _ => []
                     end) chunks.

(** A list taken from another by leaving elements out. *)
Inductive Subsequence {A : Type} : list A -> list A -> Prop :=
| Subsequence_nil : Subsequence [] []
| Subsequence_keep x l1 l2 : Subsequence l1 l2 -> Subsequence (x :: l1) (x :: l2)
| Subsequence_skip x l1 l2 : Subsequence l1 l2 -> Subsequence l1 (x :: l2).



(** The socket events among the things that happen. *)
Definition arrivals (os : list occurrence) : list input :=
  flat_map (fun o => match o with Arrives i => [i] | Answers _ => [] end) os.

End Measures.

(** ** More concrete data *)

Module Scenes.

Import Backend.

(** A server with two browsers connected, the second one last. *)
Definition twoClients : Server :=
  {| audioState := audioState0; serverWs := Some 2%nat; sessions := [2%nat; 1%nat] |}.

(** A process whose one browser has sent a voiced frame and ten silent
    ones: the handler has asked for the transcription and waits. *)
Definition heard : Buffer :=
  Buffer_concat (Samples.loud :: repeat Samples.quiet 10).

Definition waitingForAnswer : Process :=
  {| server := {| audioState := {| isRecording := true;
                                   buffer := Samples.loud :: repeat Samples.quiet 10;
                                   silenceCount := 10 |};
                  serverWs := Some 1%nat;
                  sessions := [1%nat] |};
     upstream := OPEN;
     suspended := [{| audio := heard; remaining := [] |}];
     exited := false |}.

End Scenes.

(** * Properties *)

Import Backend.

(** ** Voice activity detection *)

Lemma ingest_voiced st buf :
  ingest st buf true =
  ({| isRecording := true; buffer := buffer st ++ [buf]; silenceCount := 0 |}, None).
Proof. reflexivity. Qed.

Lemma ingest_silent_idle st buf :
  isRecording st = false -> ingest st buf false = (st, None).
Proof. intros H. unfold ingest. now rewrite H. Qed.

Lemma ingest_silent_recording st buf :
  isRecording st = true ->
  (S (silenceCount st) < MIN_SILENCE_FRAMES)%nat ->
  ingest st buf false =
  ({| isRecording := true; buffer := buffer st ++ [buf];
      silenceCount := S (silenceCount st) |}, None).
Proof.
  intros Hrec Hlt. unfold ingest. rewrite Hrec. cbn [silenceCount].
  destruct (Nat.leb_spec MIN_SILENCE_FRAMES (S (silenceCount st))); [lia | reflexivity].
Qed.

Lemma ingest_silent_flush st buf :
  isRecording st = true ->
  (MIN_SILENCE_FRAMES <= S (silenceCount st))%nat ->
  ingest st buf false =
  (audioState0,
   if (MIN_VOICE_FRAMES <? List.length (buffer st ++ [buf]))%nat
   then Some (buffer st ++ [buf]) else None).
Proof.
  intros Hrec Hge. unfold ingest. rewrite Hrec. cbn [silenceCount buffer].
  destruct (Nat.leb_spec MIN_SILENCE_FRAMES (S (silenceCount st))); [reflexivity | lia].
Qed.

(** Whatever is flushed passed the length test. *)
Lemma ingest_flushed_long st buf v frames :
  snd (ingest st buf v) = Some frames ->
  (MIN_VOICE_FRAMES < List.length frames)%nat.
Proof.
  unfold ingest. destruct v; [discriminate |].
  destruct (isRecording st); [| discriminate].
  cbn [silenceCount buffer].
  destruct (MIN_SILENCE_FRAMES <=? S (silenceCount st))%nat; [| discriminate].
  cbn [snd].
  destruct (Nat.ltb_spec MIN_VOICE_FRAMES (List.length (buffer st ++ [buf])));
    [| discriminate].
  intros E. injection E as <-. assumption.
Qed.

Lemma vadInvariant_init : vadInvariant audioState0.
Proof. unfold vadInvariant, MIN_SILENCE_FRAMES. cbn. repeat split; lia. Qed.

Lemma vadInvariant_ingest st buf v :
  vadInvariant st -> vadInvariant (fst (ingest st buf v)).
Proof.
  intros (Hidle & Hle & Hlt). destruct v.
  - rewrite ingest_voiced. unfold vadInvariant, MIN_SILENCE_FRAMES. cbn.
    repeat split; try discriminate; lia.
  - destruct (isRecording st) eqn:Hrec.
    + destruct (Nat.le_gt_cases MIN_SILENCE_FRAMES (S (silenceCount st))).
      * rewrite ingest_silent_flush by assumption. apply vadInvariant_init.
      * rewrite ingest_silent_recording by assumption.
        unfold vadInvariant. cbn. rewrite length_app. cbn.
        repeat split; try discriminate; lia.
    + rewrite ingest_silent_idle by assumption. cbn [fst].
      unfold vadInvariant. auto.
Qed.

Lemma reachable_invariant st : reachable st -> vadInvariant st.
Proof.
  induction 1 as [| st buf v _ IH].
  - apply vadInvariant_init.
  - now apply vadInvariant_ingest.
Qed.

Lemma feed_app st xs ys :
  feed st (xs ++ ys) =
  let '(st1, o1) := feed st xs in
  let '(st2, o2) := feed st1 ys in
  (st2, o1 ++ o2).
Proof.
  revert st. induction xs as [| [buf v] xs IH]; intros st; cbn [feed app].
  - now destruct (feed st ys).
  - destruct (ingest st buf v) as [st1 out]. rewrite IH.
    destruct (feed st1 xs) as [st2 o1]. destruct (feed st2 ys) as [st3 o2].
    now destruct out.
Qed.

Lemma feed_reachable st frames :
  reachable st -> reachable (fst (feed st frames)).
Proof.
  revert st. induction frames as [| [buf v] rest IH]; intros st Hr; cbn [feed].
  - exact Hr.
  - pose proof (reachable_step st buf v Hr) as Hr1.
    destruct (ingest st buf v) as [st1 out]. cbn [fst] in Hr1.
    specialize (IH st1 Hr1). destruct (feed st1 rest) as [st2 outs]. exact IH.
Qed.

Lemma feed_flushed_long st frames :
  Forall (fun fl => (MIN_VOICE_FRAMES < List.length fl)%nat) (snd (feed st frames)).
Proof.
  revert st. induction frames as [| [buf v] rest IH]; intros st; cbn [feed].
  - constructor.
  - pose proof (ingest_flushed_long st buf v) as Hlong.
    destruct (ingest st buf v) as [st1 out]. specialize (IH st1).
    destruct (feed st1 rest) as [st2 outs]. cbn [snd] in *.
    destruct out as [fr |]; [constructor; auto | assumption].
Qed.

(** Between iterations the length test of the flush can only succeed: the
    frames counted in [silenceCount] are themselves in the buffer. *)
Lemma flush_guard_always_passes st buf :
  reachable st ->
  isRecording st = true ->
  (MIN_SILENCE_FRAMES <= S (silenceCount st))%nat ->
  ingest st buf false = (audioState0, Some (buffer st ++ [buf])).
Proof.
  intros Hr Hrec Hge. rewrite ingest_silent_flush by assumption.
  destruct (reachable_invariant st Hr) as (_ & Hle & _).
  destruct (Nat.ltb_spec MIN_VOICE_FRAMES (List.length (buffer st ++ [buf])))
    as [_ | Hshort]; [reflexivity |].
  rewrite length_app in Hshort. cbn in Hshort.
  unfold MIN_SILENCE_FRAMES, MIN_VOICE_FRAMES in *. lia.
Qed.

(** While recording, the buffer holds a frame that is not counted as
    silence: the voiced one that started the recording. *)
Lemma recording_has_voiced_frame st :
  reachable st ->
  isRecording st = true ->
  (silenceCount st < List.length (buffer st))%nat.
Proof.
  induction 1 as [| st buf v Hr IH]; [discriminate |].
  destruct v.
  - rewrite ingest_voiced. cbn. rewrite length_app. cbn. lia.
  - destruct (isRecording st) eqn:Hrec.
    + destruct (Nat.le_gt_cases MIN_SILENCE_FRAMES (S (silenceCount st))).
      * rewrite ingest_silent_flush by assumption. discriminate.
      * rewrite ingest_silent_recording by assumption.
        cbn. rewrite length_app. cbn. intros _. specialize (IH eq_refl). lia.
    + rewrite ingest_silent_idle by assumption. cbn [fst]. congruence.
Qed.

(** Hence every buffer flushed on the way from the initial state holds
    more than MIN_SILENCE_FRAMES frames: at least one voiced frame and the
    ten silent ones that ended the recording. *)
Lemma feed_flushed_with_silence st frames :
  reachable st ->
  Forall (fun fl => (MIN_SILENCE_FRAMES < List.length fl)%nat) (snd (feed st frames)).
Proof.
  revert st. induction frames as [| [buf v] rest IH]; intros st Hr; cbn [feed].
  - constructor.
  - pose proof (reachable_step st buf v Hr) as Hr1.
    assert (Hout : forall fr, snd (ingest st buf v) = Some fr ->
                              (MIN_SILENCE_FRAMES < List.length fr)%nat).
    { intros fr. destruct v; [rewrite ingest_voiced; discriminate |].
      destruct (isRecording st) eqn:Hrec;
        [| rewrite ingest_silent_idle by assumption; discriminate].
      destruct (Nat.le_gt_cases MIN_SILENCE_FRAMES (S (silenceCount st))).
      - rewrite flush_guard_always_passes by assumption. cbn [snd].
        intros E. injection E as <-.
        pose proof (recording_has_voiced_frame st Hr Hrec).
        rewrite length_app. cbn. lia.
      - rewrite ingest_silent_recording by assumption. discriminate. }
    destruct (ingest st buf v) as [st1 out]. cbn [fst snd] in *.
    specialize (IH st1 Hr1). destruct (feed st1 rest) as [st2 outs]. cbn [snd] in *.
    destruct out as [fr |]; [constructor; auto | assumption].
Qed.

Ltac fixed_length :=
  repeat match goal with
         | H : List.length ?l = _ |- _ =>
             destruct l; cbn [List.length] in H;
             [try discriminate H | try discriminate H; try injection H as H]
         end.

(** A burst of voiced frames of any length, followed by ten silent ones,
    is flushed whole. *)
Lemma burst_then_silence_flushed v vs ss :
  List.length ss = 10%nat ->
  feed audioState0 (voicedFrames (v :: vs) ++ silentFrames ss)
  = (audioState0, [v :: vs ++ ss]).
Proof.
  intros Hss. fixed_length. rewrite feed_app.
  assert (Hv : forall l st,
             feed st (voicedFrames l) =
             (match l with
              | [] => st
              | _ => {| isRecording := true; buffer := buffer st ++ l;
                        silenceCount := 0 |}
              end, [])).
  { induction l as [| x l IH]; intros st; cbn [voicedFrames map feed].
    - reflexivity.
    - rewrite ingest_voiced. fold (voicedFrames l). rewrite IH.
      destruct l; cbn [buffer]; [reflexivity |].
      now rewrite <- app_assoc. }
  rewrite Hv. cbn [silentFrames map feed buffer app].
  do 9 (rewrite ingest_silent_recording
         by (cbn [isRecording silenceCount]; unfold MIN_SILENCE_FRAMES;
             first [reflexivity | lia])).
  rewrite ingest_silent_flush
    by (cbn [isRecording silenceCount]; unfold MIN_SILENCE_FRAMES;
        first [reflexivity | lia]).
  cbn [buffer].
  match goal with
  | |- context [(MIN_VOICE_FRAMES <? ?n)%nat] =>
      destruct (Nat.ltb_spec MIN_VOICE_FRAMES n) as [_ | Hshort]
  end.
  - repeat rewrite <- app_assoc. reflexivity.
  - repeat rewrite length_app in Hshort. cbn [List.length] in Hshort.
    unfold MIN_VOICE_FRAMES in Hshort. lia.
Qed.

(** C10: every state reachable from the initial one by ingest steps is
    idle only with an empty buffer and a zero silence count, never counts
    more silent frames than it has buffered, and ends each step with a
    silence count below MIN_SILENCE_FRAMES: the step that would reach the
    threshold resets the state instead. *)
Theorem C10_reachable_state_invariant (st : AudioState) (buf : Buffer) :
  reachable st ->
  (isRecording st = false -> buffer st = [] /\ silenceCount st = 0%nat)
  /\ (silenceCount st <= List.length (buffer st))%nat
  /\ (silenceCount st < MIN_SILENCE_FRAMES)%nat
  /\ (isRecording st = true ->
      S (silenceCount st) = MIN_SILENCE_FRAMES ->
      fst (ingest st buf false) = audioState0).
Proof.
  intros Hr. destruct (reachable_invariant st Hr) as (Hidle & Hle & Hlt).
  repeat split; try assumption; try (now apply Hidle).
  intros Hrec Hs. rewrite ingest_silent_flush; [reflexivity | assumption | lia].
Qed.

Lemma C10_reachable_state_invariant_witness :
  let st := fst (ingest (fst (ingest audioState0 Samples.loud true)) Samples.quiet false) in
  reachable st /\ (silenceCount st <= List.length (buffer st))%nat.
Proof.
  intros st.
  assert (Hr : reachable st)
    by (apply reachable_step, reachable_step, reachable_init).
  split; [exact Hr |].
  exact (proj1 (proj2 (C10_reachable_state_invariant st Samples.quiet Hr))).
Defined.

(** C5: whatever sequence of classified frames is fed from the initial
    state, every flushed buffer holds at least MIN_VOICE_FRAMES frames. *)
Theorem C5_flushed_buffers_not_short (frames : list (Buffer * bool)) :
  Forall (fun fl => (MIN_VOICE_FRAMES <= List.length fl)%nat)
         (snd (feed audioState0 frames)).
Proof.
  eapply Forall_impl; [| apply feed_flushed_long].
  cbn beta. intros fl H. lia.
Qed.

(** C6: a silent frame met while not recording changes nothing and is not
    buffered; silent frames fed from the initial state (ten of them, or
    any number) leave it as it was and flush nothing. *)
Theorem C6_silence_while_idle_is_dropped
  (st : AudioState) (buf : Buffer) (bufs : list Buffer) :
  isRecording st = false ->
  ingest st buf false = (st, None)
  /\ feed audioState0 (silentFrames bufs) = (audioState0, []).
Proof.
  intros Hidle. split; [now apply ingest_silent_idle |].
  induction bufs as [| b bufs IH]; [reflexivity |].
  cbn [silentFrames map feed]. rewrite ingest_silent_idle by reflexivity.
  fold (silentFrames bufs). now rewrite IH.
Qed.

Lemma C6_silence_while_idle_is_dropped_witness :
  ingest audioState0 Samples.quiet false = (audioState0, None)
  /\ feed audioState0 (silentFrames (repeat Samples.quiet 10)) = (audioState0, []).
Proof.
  exact (C6_silence_while_idle_is_dropped
           audioState0 Samples.quiet (repeat Samples.quiet 10) eq_refl).
Defined.

(** C4: six voiced frames followed by ten silent ones, fed from the
    initial state, flush exactly one utterance buffer, the concatenation
    of the sixteen frames in arrival order, and leave the state reset. *)
Theorem C4_six_voiced_ten_silent (vs ss : list Buffer) :
  List.length vs = 6%nat ->
  List.length ss = 10%nat ->
  let '(st, flushed) := feed audioState0 (voicedFrames vs ++ silentFrames ss) in
  st = {| isRecording := false; buffer := []; silenceCount := 0 |}
  /\ utterances flushed = [Buffer_concat (vs ++ ss)]
  /\ List.length (vs ++ ss) = 16%nat.
Proof.
  intros Hvs Hss. destruct vs as [| v vs]; [discriminate |].
  rewrite burst_then_silence_flushed by assumption.
  repeat split. rewrite length_app. lia.
Qed.

Lemma C4_six_voiced_ten_silent_witness :
  let vs := repeat Samples.loud 6 in
  let ss := repeat Samples.quiet 10 in
  let '(st, flushed) := feed audioState0 (voicedFrames vs ++ silentFrames ss) in
  st = {| isRecording := false; buffer := []; silenceCount := 0 |}
  /\ utterances flushed = [Buffer_concat (vs ++ ss)]
  /\ List.length (vs ++ ss) = 16%nat.
Proof.
  exact (C4_six_voiced_ten_silent
           (repeat Samples.loud 6) (repeat Samples.quiet 10) eq_refl eq_refl).
Defined.

(** ** The chunk loop *)

(** The ways an iteration can end, on sample chunks; an empty buffer has
    a root mean square of 0/0, which is above nothing, and two loud
    samples in a window on the pool are averaged with the rest of the
    pool. *)
Example decodeChunk_outcomes :
  map (decodeChunk Samples.Buffer_from)
      [Samples.loudChunk; Samples.quietChunk; Samples.shapelessChunk;
       Samples.jpegChunk; Samples.oddChunk; Samples.nullTypeChunk;
       JNull; JStr "audio/pcm"; Samples.pcmChunk ""; Samples.pcmChunk "6APoAw=="]
  = [Frame Samples.loud true; Frame Samples.quiet false; Invalid;
     Unsupported; Threw RangeError; Threw TypeError;
     Invalid; Invalid; Frame [] false; Frame Samples.beep false].
Proof. vm_compute. reflexivity. Qed.

Section ChunkLoop.

Variable Buffer_from : value -> result NodeBuffer.
Variable recognize : Buffer -> result (option string).

#[local] Abbreviation decode := (decodeChunk Buffer_from).
#[local] Abbreviation each := (forEachChunk Buffer_from recognize).


Lemma processChunk_sockets s chunk :
  let s1 := fst (processChunk Buffer_from recognize s chunk) in
  serverWs s1 = serverWs s /\ sessions s1 = sessions s.
Proof.
  unfold processChunk. destruct (decode chunk); try (now split).
  destruct (ingest (audioState s) buf isVoiceActive). now split.
Qed.



Lemma forEachChunk_sockets s chunks :
  let s1 := fst (each s chunks) in
  serverWs s1 = serverWs s /\ sessions s1 = sessions s.
Proof.
  revert s. induction chunks as [| c chunks IH]; intros s; cbn [forEachChunk].
  - now split.
  - pose proof (processChunk_sockets s c) as Hc.
    destruct (processChunk Buffer_from recognize s c) as [s1 e1]. cbn [fst] in Hc.
    specialize (IH s1). destruct (each s1 chunks) as [s2 e2]. cbn [fst] in *.
    destruct Hc as [Hws Hss], IH as [IHws IHss]. split; congruence.
Qed.

(** The loop is the detector fed with the frames that decode, and asks
    for one transcription per flushed buffer. *)
Lemma forEachChunk_feed s chunks frames :
  map decode chunks = map (fun f => Frame (fst f) (snd f)) frames ->
  audioState (fst (each s chunks)) = fst (feed (audioState s) frames)
  /\ recognized (snd (each s chunks)) = utterances (snd (feed (audioState s) frames)).
Proof.
  revert s frames. induction chunks as [| c chunks IH]; intros s [| [b v] frames] E;
    try discriminate E; cbn [forEachChunk feed].
  - now split.
  - cbn [map fst snd] in E. injection E as Ec E.
    unfold processChunk. rewrite Ec.
    destruct (ingest (audioState s) b v) as [st out].
    specialize (IH (withAudioState s st) frames E). cbn [audioState withAudioState] in IH.
    destruct (each (withAudioState s st) chunks) as [s2 e2].
    destruct (feed st frames) as [st2 outs]. cbn [fst snd] in *.
    destruct IH as [-> IH]. split; [reflexivity |].
    unfold recognized in *. rewrite flat_map_app, IH.
    destruct out as [fr |]; [| reflexivity].
    unfold processSpeechToText, sendTranscription. cbn [flat_map app utterances map].
    destruct (recognize (Buffer_concat fr)) as [[t |] | e]; cbn; try reflexivity.
    destruct (negb (t =? "")%string); cbn; [| reflexivity].
    now destruct (serverWs s).
Qed.

Lemma onDownstreamMessage_batch s parsed batch :
  mediaChunksOf parsed = Ok (Some (JArr batch)) ->
  onDownstreamMessage Buffer_from recognize s parsed
  = (fst (each s batch),
     UpstreamSend clientWs (clientBatch batch) :: snd (each s batch),
     Ok tt).
Proof.
  intros E. unfold onDownstreamMessage. rewrite E. cbn [iterate].
  now destruct (each s batch).
Qed.


End ChunkLoop.


(** The sample chunks decode to the sample frames and are classified as
    their names say. *)
Lemma decode_loudChunk :
  decodeChunk Samples.Buffer_from Samples.loudChunk = Frame Samples.loud true.
Proof. vm_compute. reflexivity. Qed.

Lemma decode_quietChunk :
  decodeChunk Samples.Buffer_from Samples.quietChunk = Frame Samples.quiet false.
Proof. vm_compute. reflexivity. Qed.

Lemma decode_oddChunk :
  decodeChunk Samples.Buffer_from Samples.oddChunk = Threw RangeError.
Proof. vm_compute. reflexivity. Qed.

(** Three chunks decoded as voiced and ten decoded as silent, in one
    batch handled from the initial detector state, end in one
    transcription request for all thirteen frames. *)
Lemma burst_reaches_transcription
  (Buffer_from : value -> result NodeBuffer)
  (recognize : Buffer -> result (option string))
  (s : Server) (loudC quietC : json) (l q : Buffer) :
  audioState s = audioState0 ->
  decodeChunk Buffer_from loudC = Frame l true ->
  decodeChunk Buffer_from quietC = Frame q false ->
  let '(s1, effects, _) :=
    onDownstreamMessage Buffer_from recognize s
      (clientBatch (repeat loudC 3 ++ repeat quietC 10)) in
  audioState s1 = audioState0
  /\ recognized effects = [Buffer_concat (repeat l 3 ++ repeat q 10)].
Proof.
  intros Hst Hl Hq.
  rewrite (onDownstreamMessage_batch Buffer_from recognize s
             (clientBatch (repeat loudC 3 ++ repeat quietC 10))
             (repeat loudC 3 ++ repeat quietC 10) eq_refl).
  pose proof (forEachChunk_feed Buffer_from recognize s
                (repeat loudC 3 ++ repeat quietC 10)
                (voicedFrames (repeat l 3) ++ silentFrames (repeat q 10))) as H.
  rewrite Hst in H.
  change (repeat l 3) with [l; l; l] in H.
  rewrite (burst_then_silence_flushed l [l; l] (repeat q 10) eq_refl) in H.
  destruct H as [Ha Hr].
  { cbn [repeat app map voicedFrames silentFrames fst snd]. now rewrite Hl, Hq. }
  split; [exact Ha |]. cbn [recognized flat_map app]. exact Hr.
Qed.

(** C1: on three voiced chunks followed by ten silent ones the server does
    send the thirteen buffered frames for transcription, and then resets:
    the length test counts the silent frames that triggered the flush.
    Each chunk decodes to 4098 bytes, above the limit under which a
    buffer is carved from the allocation pool, so each buffer owns its
    [ArrayBuffer], whatever the pool holds, and the detector sees exactly
    its samples. *)
Theorem C1_short_burst_is_transcribed :
  (forall pool poolOffset,
     Samples.fromPool pool poolOffset (Some (JStr Samples.loudText))
     = Ok (owned Samples.loud))
  /\ (forall pool poolOffset,
        Samples.fromPool pool poolOffset (Some (JStr Samples.quietText))
        = Ok (owned Samples.quiet))
  /\ detectVoiceActivity (owned Samples.loud) = Ok true
  /\ detectVoiceActivity (owned Samples.quiet) = Ok false
  /\ feed audioState0
          (voicedFrames (repeat Samples.loud 3) ++ silentFrames (repeat Samples.quiet 10))
     = ({| isRecording := false; buffer := []; silenceCount := 0 |},
        [repeat Samples.loud 3 ++ repeat Samples.quiet 10])
  /\ (let '(s, effects, _) :=
        onDownstreamMessage Samples.Buffer_from Samples.recognize Samples.oneClient
          (clientBatch (repeat Samples.loudChunk 3 ++ repeat Samples.quietChunk 10)) in
      audioState s = audioState0
      /\ recognized effects
         = [Buffer_concat (repeat Samples.loud 3 ++ repeat Samples.quiet 10)]).
Proof.
  split; [intros pool poolOffset; vm_compute; reflexivity |].
  split; [intros pool poolOffset; vm_compute; reflexivity |].
  split; [vm_compute; reflexivity |].
  split; [vm_compute; reflexivity |].
  split; [exact (burst_then_silence_flushed
                   Samples.loud [Samples.loud; Samples.loud]
                   (repeat Samples.quiet 10) eq_refl) |].
  exact (burst_reaches_transcription
           Samples.Buffer_from Samples.recognize Samples.oneClient
           Samples.loudChunk Samples.quietChunk Samples.loud Samples.quiet
           eq_refl decode_loudChunk decode_quietChunk).
Qed.

(** ** Upstream and downstream sockets *)

Section Pairing.

Variable Buffer_from : value -> result NodeBuffer.
Variable recognize : Buffer -> result (option string).

Lemma tame_nil : tame [].
Proof. split; [reflexivity | constructor]. Qed.

Lemma tame_app e1 e2 : tame e1 -> tame e2 -> tame (e1 ++ e2).
Proof.
  intros [H1 F1] [H2 F2]. unfold tame, upstreamsOpened, upstreamTargets in *.
  rewrite !flat_map_app, H1, H2. split; [reflexivity |].
  apply Forall_app. now split.
Qed.

Lemma tame_sendTranscription s audio : tame (sendTranscription recognize s audio).
Proof.
  unfold sendTranscription.
  destruct (recognize audio) as [[t |] | e]; try apply tame_nil.
  destruct (truthy (Some (JStr t))); [| apply tame_nil].
  destruct (serverWs s); split; try reflexivity; constructor.
Qed.

Lemma tame_processSpeechToText s audio : tame (processSpeechToText recognize s audio).
Proof.
  destruct (tame_sendTranscription s audio) as [H F]. split; assumption.
Qed.

Lemma tame_processChunk s chunk :
  tame (snd (processChunk Buffer_from recognize s chunk)).
Proof.
  unfold processChunk. destruct (decodeChunk Buffer_from chunk); try apply tame_nil.
  destruct (ingest (audioState s) buf isVoiceActive) as [st [fr |]]; cbn [snd].
  - apply tame_processSpeechToText.
  - apply tame_nil.
Qed.

Lemma tame_forEachChunk s chunks :
  tame (snd (forEachChunk Buffer_from recognize s chunks)).
Proof.
  revert s. induction chunks as [| c chunks IH]; intros s; cbn [forEachChunk].
  - apply tame_nil.
  - pose proof (tame_processChunk s c) as Hc.
    destruct (processChunk Buffer_from recognize s c) as [s1 e1].
    specialize (IH s1).
    destruct (forEachChunk Buffer_from recognize s1 chunks) as [s2 e2].
    now apply tame_app.
Qed.

Lemma tame_cons_send frame effects :
  tame effects -> tame (UpstreamSend clientWs frame :: effects).
Proof.
  intros [H F]. split; [exact H |]. cbn. now constructor.
Qed.

Lemma tame_onDownstreamMessage s parsed :
  tame (snd (fst (onDownstreamMessage Buffer_from recognize s parsed))).
Proof.
  unfold onDownstreamMessage. destruct (mediaChunksOf parsed) as [chunks | e].
  - destruct (iterate chunks) as [items | e].
    + pose proof (tame_forEachChunk s items) as H.
      destruct (forEachChunk Buffer_from recognize s items) as [s1 effects].
      now apply tame_cons_send.
    + apply tame_cons_send, tame_nil.
  - apply tame_nil.
Qed.

Lemma tame_onUpstreamMessage s response :
  tame (fst (onUpstreamMessage s response)).
Proof.
  unfold onUpstreamMessage.
  destruct (isServerContentMessage (Some response)) as [[|] | e]; try apply tame_nil.
  match goal with
  | |- context [match ?c with Ok _ => _ | Throw _ => _ end] => destruct c as [[content |] | e]
  end; try apply tame_nil.
  destruct (serverWs s); [| apply tame_nil].
  split; [reflexivity | constructor].
Qed.

Lemma tame_handle s i : tame (snd (fst (handle Buffer_from recognize s i))).
Proof.
  destruct i as [ws | ws parsed | ws | parsed | | |]; cbn [handle fst snd];
    try apply tame_nil.
  - destruct (existsb (Nat.eqb ws) (sessions s)); [| apply tame_nil].
    apply tame_onDownstreamMessage.
  - pose proof (tame_onUpstreamMessage s parsed) as H.
    now destruct (onUpstreamMessage s parsed).
  - apply tame_cons_send, tame_nil.
Qed.

Lemma tame_loopUntilAwait s chunks :
  tame (snd (fst (loopUntilAwait Buffer_from s chunks))).
Proof.
  revert s. induction chunks as [| c chunks IH]; intros s; cbn [loopUntilAwait].
  - apply tame_nil.
  - destruct (decodeChunk Buffer_from c); try apply IH.
    destruct (advance (audioState s) buf isVoiceActive) as [st [|]]; [| apply IH].
    split; [reflexivity | constructor].
Qed.

Lemma tame_resume s t : tame (snd (fst (resume Buffer_from recognize s t))).
Proof.
  unfold resume.
  pose proof (tame_loopUntilAwait
                (withAudioState s (resetAudioState (audioState s))) (remaining t)) as H.
  destruct (loopUntilAwait Buffer_from _ (remaining t)) as [[s1 effects] next].
  cbn [fst snd] in *. apply tame_app; [apply tame_sendTranscription | exact H].
Qed.

Lemma tame_onDownstreamMessageUntilAwait s ready parsed :
  tame (snd (fst (onDownstreamMessageUntilAwait Buffer_from s ready parsed))).
Proof.
  unfold onDownstreamMessageUntilAwait.
  destruct (mediaChunksOf parsed) as [chunks | e]; [| apply tame_nil].
  destruct ready; try apply tame_nil;
    (destruct (iterate chunks) as [items | e]; [| apply tame_cons_send, tame_nil];
     pose proof (tame_loopUntilAwait s items) as H;
     destruct (loopUntilAwait Buffer_from s items) as [[s1 effects] next];
     now apply tame_cons_send).
Qed.

Lemma tame_deliver p o : tame (snd (deliver Buffer_from recognize p o)).
Proof.
  unfold deliver. destruct (exited p); [apply tame_nil |].
  destruct o as [i | k].
  - assert (Hh : forall i',
               tame (snd (let '(s1, effects, outcome) :=
                            handle Buffer_from recognize (server p) i' in
                          ({| server := s1;
                              upstream := match i' with
                                          | UpstreamOpen => OPEN
                                          | UpstreamError => CLOSING
                                          | UpstreamClose => CLOSED
                                          | _ => upstream p
                                          end;
                              suspended := suspended p;
                              exited := threw outcome |}, effects)))).
    { intros i'. pose proof (tame_handle (server p) i') as H.
      now destruct (handle Buffer_from recognize (server p) i') as [[s1 effects] outcome]. }
    destruct i as [ws | ws parsed | ws | parsed | | |];
      try apply (Hh (Upgrade ws)); try apply (Hh (DownstreamClose ws));
      try apply (Hh (UpstreamMessage parsed)); try apply (Hh UpstreamOpen);
      try apply (Hh UpstreamClose); try apply (Hh UpstreamError).
    destruct (existsb (Nat.eqb ws) (sessions (server p))); [| apply tame_nil].
    pose proof (tame_onDownstreamMessageUntilAwait (server p) (upstream p) parsed) as H.
    now destruct (onDownstreamMessageUntilAwait Buffer_from (server p) (upstream p) parsed)
      as [[s1 effects] outcome].
  - destruct (nth_error (suspended p) k) as [t |]; [| apply tame_nil].
    pose proof (tame_resume (server p) t) as H.
    now destruct (resume Buffer_from recognize (server p) t) as [[s1 effects] next].
Qed.

Lemma tame_deliverAll p os : tame (snd (deliverAll Buffer_from recognize p os)).
Proof.
  revert p. induction os as [| o os IH]; intros p; cbn [deliverAll].
  - apply tame_nil.
  - pose proof (tame_deliver p o) as Ho.
    destruct (deliver Buffer_from recognize p o) as [p1 e1]. specialize (IH p1).
    destruct (deliverAll Buffer_from recognize p1 os) as [p2 e2].
    now apply tame_app.
Qed.

(** A batch a connected browser sends is passed to [clientWs.send]
    before anything else, unless the upstream socket is still
    connecting. *)
Lemma deliver_forwards p ws batch :
  exited p = false ->
  upstream p <> CONNECTING ->
  existsb (Nat.eqb ws) (sessions (server p)) = true ->
  exists rest,
    snd (deliver Buffer_from recognize p
           (Arrives (DownstreamMessage ws (clientBatch batch))))
    = UpstreamSend clientWs (clientBatch batch) :: rest.
Proof.
  intros Hex Hup Hws. unfold deliver. rewrite Hex, Hws.
  unfold onDownstreamMessageUntilAwait.
  change (mediaChunksOf (clientBatch batch)) with (Ok (A := value) (Some (JArr batch))).
  cbn [iterate realtimeInputMessage].
  destruct (loopUntilAwait Buffer_from (server p) batch) as [[s1 effects] next].
  destruct (upstream p); [contradiction | | |]; eexists; reflexivity.
Qed.

(** C3, as the server is written: one upstream socket is created as the
    module loads and no other ever is, however many browsers connect and
    whatever happens to the socket (it may open, fail or close, and is
    never replaced); nothing is ever sent upstream on another socket; and
    once that socket has left the connecting state, a batch from any
    connected browser is passed to its [send], ahead of anything else
    the handler does. *)
Theorem C3_single_upstream_for_all_clients (os : list occurrence) :
  let '(p, effects) := execute Buffer_from recognize os in
  upstreamsOpened effects = [clientWs]
  /\ Forall (eq clientWs) (upstreamTargets effects)
  /\ forall ws batch,
       exited p = false ->
       upstream p <> CONNECTING ->
       existsb (Nat.eqb ws) (sessions (server p)) = true ->
       exists rest,
         snd (deliver Buffer_from recognize p
                (Arrives (DownstreamMessage ws (clientBatch batch))))
         = UpstreamSend clientWs (clientBatch batch) :: rest.
Proof.
  unfold execute, launch, boot. cbn [fst snd].
  pose proof (tame_deliverAll
    {| server := {| audioState := audioState0; serverWs := None; sessions := [] |};
       upstream := CONNECTING; suspended := []; exited := false |} os) as [H F].
  destruct (deliverAll Buffer_from recognize _ os) as [p e]. cbn [snd] in *.
  unfold upstreamsOpened, upstreamTargets in *. cbn [app flat_map].
  rewrite H. split; [reflexivity |]. split; [exact F |].
  intros ws batch. apply deliver_forwards.
Qed.

End Pairing.

(** C3, as stated, fails: with the upstream socket open and two browsers
    connected there is still one upstream socket, both browsers' batches
    go out on it, and what the model service answers goes to the browser
    that connected last. *)
Lemma C3_two_clients_share_the_upstream :
  let os := map Arrives
              [UpstreamOpen;
               Upgrade 1; DownstreamMessage 1 (clientBatch []);
               Upgrade 2; DownstreamMessage 2 (clientBatch []);
               UpstreamMessage
                 (JObj [("serverContent"%string,
                         JObj [("modelTurn"%string,
                                JObj [("parts"%string, JArr [])])])])]%nat in
  let '(p, effects) := execute Samples.Buffer_from Samples.recognize os in
  exited p = false
  /\ sessions (server p) = [2; 1]%nat
  /\ effects = [NewWebSocket clientWs;
                UpstreamSend clientWs setupMessage;
                UpstreamSend clientWs (clientBatch []);
                UpstreamSend clientWs (clientBatch []);
                DownstreamSend 2%nat (modelTurnMessage [])]
  /\ upstreamsOpened effects = [clientWs]
  /\ ~ dedicatedUpstreams (p, effects)
  /\ ~ (forall os,
          dedicatedUpstreams (execute Samples.Buffer_from Samples.recognize os)).
Proof.
  cbv zeta.
  destruct (execute Samples.Buffer_from Samples.recognize _) as [p effects] eqn:E.
  vm_compute in E. injection E as <- <-.
  repeat split.
  - unfold dedicatedUpstreams. cbn. discriminate.
  - intros H. specialize (H []). unfold dedicatedUpstreams in H. cbn in H.
    discriminate H.
Qed.

(** ** Sample conversion *)

Import Codec.

Lemma toInt16_small n : -32768 <= n < 32768 -> toInt16 n = n.
Proof.
  intros H. unfold toInt16.
  destruct (Z_lt_le_dec n 0) as [Hneg | Hpos].
  - replace (n mod 65536) with (n + 65536).
    + destruct (Z.ltb_spec (n + 65536) 32768); lia.
    + apply Z.mod_unique with (q := -1); lia.
  - rewrite Z.mod_small by lia. destruct (Z.ltb_spec n 32768); lia.
Qed.

(** The truncated product stays in range and, scaled back by 2^15 rather
    than by 32767, misses the sample by less than two units. *)
Lemma Qtrunc_scaled_bounds (n : Z) (d : positive) :
  - Zpos d <= n <= Zpos d ->
  let t := Z.quot (n * 32767) (Zpos d) in
  -32767 <= t <= 32767
  /\ - 2 * Zpos d < t * Zpos d - 32768 * n < 2 * Zpos d.
Proof.
  intros H t.
  pose proof (Z.quot_rem' (n * 32767) (Zpos d)) as E. fold t in E.
  destruct (Z_lt_le_dec n 0) as [Hneg | Hpos].
  - assert (- Zpos d < Z.rem (n * 32767) (Zpos d) <= 0)
      by (apply Z.rem_bound_pos_neg; lia).
    split; nia.
  - assert (0 <= Z.rem (n * 32767) (Zpos d) < Zpos d)
      by (apply Z.rem_bound_pos; lia).
    split; nia.
Qed.

(** C9, as the conversions are written: a sample in [-1, 1] comes back
    within two quantization steps. *)
Theorem C9_round_trip_within_two_steps (x : Q) :
  (-1 <= x <= 1)%Q -> (Qabs (roundTrip x - x) < 2 # 32768)%Q.
Proof.
  intros [Hlo Hhi]. destruct x as [n d].
  unfold Qle in Hlo, Hhi. cbn in Hlo, Hhi.
  assert (Hn : - Zpos d <= n <= Zpos d) by lia.
  destruct (Qtrunc_scaled_bounds n d Hn) as [Ht Hd].
  unfold roundTrip, float32ToPCM16, Qtrunc. cbn [Qmult Qnum Qden].
  rewrite Pos.mul_1_r, toInt16_small by lia.
  set (t := Z.quot (n * 32767) (Zpos d)) in *.
  apply Qabs_Qlt_condition.
  unfold pcm16ToFloat32, Qlt, Qminus, Qplus, Qopp, Qdiv, Qmult, Qinv, inject_Z.
  cbn. lia.
Qed.

Lemma C9_round_trip_within_two_steps_witness :
  (Qabs (roundTrip (65535 # 65536) - (65535 # 65536)) < 2 # 32768)%Q.
Proof.
  apply (C9_round_trip_within_two_steps (65535 # 65536)).
  split; discriminate.
Defined.

(** C9, as stated, fails: 65535/65536 is a float32 in range, it is
    recorded as 32766 and played back as 32766/32768, one and a half
    steps below. *)
Lemma C9_round_trip_misses_by_more_than_a_step :
  (-1 <= 65535 # 65536 <= 1)%Q
  /\ float32ToPCM16 (65535 # 65536) = 32766
  /\ ~ (Qabs (roundTrip (65535 # 65536) - (65535 # 65536)) <= 1 # 32768)%Q.
Proof.
  split; [split; discriminate |]. split; [reflexivity |].
  vm_compute. intros H. now apply H.
Qed.

(** The machine-number versions agree with the rational ones there. *)
Example round_trip_on_machine_numbers :
  let x := (number_of_Z 65535 / number_of_Z 65536)%float in
  Qeq_bool (Q_of_number x) (65535 # 65536) = true
  /\ float32ToPCM16_number x = float32ToPCM16 (65535 # 65536)
  /\ Qeq_bool (Q_of_number (pcm16ToFloat32_number (float32ToPCM16_number x)))
              (roundTrip (65535 # 65536)) = true.
Proof. vm_compute. repeat split. Qed.

(** ** The client's sends *)

Import LiveClient.

(** C8: with no open socket ([ws] is [null]: before the socket of
    [connect] has opened, after [disconnect], after the socket closed)
    each of the three sends throws the not-connected error and transmits
    nothing; with an open socket each transmits its envelope on it. *)
Theorem C8_sends_need_an_open_socket
  (c : Client) (chunks : list GenerativeContentBlob) (toolResponse parts : json)
  (turnComplete : bool) (members : list (string * json)) (w : Sock) :
  match ws c with
  | None =>
      sendRealtimeInput c chunks = ([], Throw (Error "WebSocket is not connected"))
      /\ sendToolResponse c toolResponse
         = ([], Throw (Error "WebSocket is not connected"))
      /\ send c parts turnComplete = ([], Throw (Error "WebSocket is not connected"))
  | Some w' =>
      sendRealtimeInput c chunks
      = ([WsSend w' (JObj [("realtimeInput"%string,
                            JObj [("mediaChunks"%string, JArr (map blobToJson chunks))])]);
          EmitLog "client.realtimeInput"], Ok tt)
      /\ sendToolResponse c toolResponse
         = ([WsSend w' (JObj [("toolResponse"%string, toolResponse)]);
             EmitLog "client.toolResponse"], Ok tt)
      /\ send c parts turnComplete
         = ([WsSend w'
               (JObj [("clientContent"%string,
                       JObj [("turns"%string,
                              JArr [JObj [("role"%string, JStr "user");
                                          ("parts"%string,
                                           match parts with
                                           | JArr _ => parts
                                           | _ => JArr [parts]
                                           end)]]);
                             ("turnComplete"%string, JBool turnComplete)])]);
             EmitLog "client.send"], Ok tt)
  end
  /\ ws newClient = None
  /\ ws (fst (connect c (JObj members) w)) = ws c
  /\ ws (fst (onOpen (fst (connect c (JObj members) w)) w)) = Some w
  /\ ws (fst (disconnect c None)) = None
  /\ ws (fst (onClose (fst (onOpen (fst (connect c (JObj members) w)) w)) w)) = None.
Proof.
  split.
  - unfold sendRealtimeInput, sendToolResponse, send, _sendDirect.
    destruct (ws c) as [w' |]; repeat split.
  - repeat split.
    + unfold disconnect. destruct (ws c) eqn:E; [reflexivity | exact E].
    + unfold onClose, onOpen, connect. cbn [fst config truthy ws].
      unfold disconnect. cbn [ws]. now rewrite Nat.eqb_refl.
Qed.

(** ** Dispatch of upstream messages *)

Lemma andThen_lift_ok {A B} (a : A) (k : A -> action B) :
  andThen (lift (Ok a)) k = k a.
Proof. unfold andThen, lift. now destruct (k a). Qed.

Lemma andThen_ret {A B} (a : A) (k : A -> action B) :
  andThen (ret a) k = k a.
Proof. apply andThen_lift_ok. Qed.

Lemma andThen_emit {B} (e : event) (k : unit -> action B) :
  andThen (emit e) k = (e :: fst (k tt), snd (k tt)).
Proof. unfold andThen, emit. now destruct (k tt). Qed.

Lemma andThen_events_ok {B} (es : list event) (k : unit -> action B) :
  andThen (es, Ok tt) k = (es ++ fst (k tt), snd (k tt)).
Proof. unfold andThen. now destruct (k tt). Qed.

Lemma isAudioPart_partToJson p : isAudioPart (partToJson p) = Ok (isAudio p).
Proof. now destruct p. Qed.

Lemma filter_r_parts parts :
  filter_r isAudioPart (map partToJson parts)
  = Ok (map partToJson (filter isAudio parts)).
Proof.
  induction parts as [| p parts IH]; [reflexivity |].
  cbn [map filter_r filter]. rewrite isAudioPart_partToJson, IH.
  cbn [JS.bind]. now destruct (isAudio p).
Qed.

Lemma difference_parts parts :
  difference (map partToJson parts)
  = map partToJson (filter (fun p => negb (isAudio p)) parts).
Proof.
  unfold difference. induction parts as [| p parts IH]; [reflexivity |].
  cbn [map filter]. unfold keeps at 1. rewrite isAudioPart_partToJson, IH.
  now destruct (isAudio p).
Qed.

Section Receive.

Variable base64ToArrayBuffer : value -> result Buffer.
Variable decode : string -> Buffer.
Hypothesis decodes : forall d, base64ToArrayBuffer (Some (JStr d)) = Ok (decode d).

Lemma emitAudio_parts parts :
  exists base64s,
    map_r inlineDataOf (map partToJson (filter isAudio parts)) = Ok base64s
    /\ emitAudio base64ToArrayBuffer base64s = (audioEvents decode parts, Ok tt).
Proof.
  induction parts as [| p parts (base64s & Hmap & Hemit)].
  - exists []. now split.
  - destruct p as [t | m d]; cbn [filter isAudio audioEvents flat_map app].
    + exists base64s. now split.
    + destruct (startsWith m "audio/pcm") eqn:Hm; cbn [andb].
      * exists (Some (JStr d) :: base64s). split.
        -- cbn [map map_r]. rewrite Hmap. reflexivity.
        -- cbn [emitAudio truthy]. rewrite Hemit.
           fold (audioEvents decode parts).
           destruct (negb (d =? "")%string); cbn [when].
           ++ unfold lift. rewrite decodes. reflexivity.
           ++ reflexivity.
      * exists base64s. now split.
Qed.

Lemma receiveModelTurn_parts parts others :
  lookup "modelTurn" others = None ->
  receiveModelTurn base64ToArrayBuffer
    (Some (JObj (others ++ [modelTurnMember parts])))
  = (audioEvents decode parts ++ contentEvents parts, Ok tt).
Proof.
  intros Hl. unfold receiveModelTurn, audioPartsOf.
  assert (Hget : get (Some (JObj (others ++ [modelTurnMember parts]))) "modelTurn"
                 = Ok (Some (JObj [("parts"%string, JArr (map partToJson parts))]))).
  { cbn [get]. f_equal. induction others as [| [k v] others IH]; [reflexivity |].
    cbn [app lookup] in *. destruct (String.eqb "modelTurn" k); [discriminate |].
    now apply IH. }
  rewrite Hget. cbn [JS.bind get lookup String.eqb Ascii.eqb Bool.eqb].
  rewrite filter_r_parts. cbn [JS.bind]. rewrite andThen_lift_ok.
  destruct (emitAudio_parts parts) as (base64s & Hmap & Hemit).
  rewrite Hmap, andThen_lift_ok, Hemit, andThen_events_ok.
  rewrite difference_parts. unfold contentEvents.
  destruct (filter (fun p => negb (isAudio p)) parts) as [| o os]; reflexivity.
Qed.

(** A message whose only member is [serverContent] reaches the
    [serverContent] branch and nothing else. *)
Lemma receive_serverContentMessage members :
  receive base64ToArrayBuffer (serverContentMessage members)
  = receiveServerContent base64ToArrayBuffer (Some (serverContentMessage members)).
Proof.
  unfold receive.
  change (isToolCallMessage (Some (serverContentMessage members))) with (@Ok bool false).
  rewrite andThen_lift_ok.
  change (isToolCallCancellationMessage (Some (serverContentMessage members)))
    with (@Ok bool false).
  rewrite andThen_lift_ok.
  change (isSetupCompleteMessage (Some (serverContentMessage members)))
    with (@Ok bool false).
  rewrite andThen_lift_ok. cbn [when]. rewrite andThen_ret.
  change (isServerContenteMessage (Some (serverContentMessage members)))
    with (@Ok bool true).
  now rewrite andThen_lift_ok.
Qed.

(** C2: a [serverContent] message carrying [turnComplete: true] and
    [modelTurn] parts produces the turn-complete event and then the audio
    and content events of its parts; a [serverContent] message carrying a
    truthy [interrupted] produces the interrupted event and nothing from
    whatever else it carries. *)
Theorem C2_turn_complete_does_not_exclude_model_turn
  (parts : list Part) (members : list (string * json)) :
  truthy (lookup "interrupted" members) = true ->
  receive base64ToArrayBuffer
    (serverContentMessage [turnCompleteMember; modelTurnMember parts])
  = ([EmitLog "server.send"; EmitTurnComplete]
       ++ audioEvents decode parts ++ contentEvents parts, Ok tt)
  /\ receive base64ToArrayBuffer (serverContentMessage members)
     = ([EmitLog "receive.serverContent"; EmitInterrupted], Ok tt)
  /\ existsb carriesOutput
       (fst (receive base64ToArrayBuffer (serverContentMessage members))) = false.
Proof.
  intros Hint.
  assert (Hstop : receive base64ToArrayBuffer (serverContentMessage members)
                  = ([EmitLog "receive.serverContent"; EmitInterrupted], Ok tt)).
  { rewrite receive_serverContentMessage. unfold receiveServerContent.
    change (get (Some (serverContentMessage members)) "serverContent")
      with (@Ok value (Some (JObj members))).
    rewrite andThen_lift_ok. unfold isInterrupted. cbn [get JS.bind].
    rewrite Hint, andThen_lift_ok. reflexivity. }
  split; [| split; [exact Hstop | now rewrite Hstop]].
  rewrite receive_serverContentMessage. unfold receiveServerContent.
  change (get (Some (serverContentMessage [turnCompleteMember; modelTurnMember parts]))
              "serverContent")
    with (@Ok value (Some (JObj ([turnCompleteMember] ++ [modelTurnMember parts])))).
  rewrite andThen_lift_ok.
  change (isInterrupted (Some (JObj ([turnCompleteMember] ++ [modelTurnMember parts]))))
    with (@Ok bool false).
  rewrite andThen_lift_ok.
  change (isTurnComplete (Some (JObj ([turnCompleteMember] ++ [modelTurnMember parts]))))
    with (@Ok bool true).
  rewrite andThen_lift_ok. cbn [when].
  change (isModelTurn (Some (JObj ([turnCompleteMember] ++ [modelTurnMember parts]))))
    with (@Ok bool true).
  rewrite receiveModelTurn_parts by reflexivity.
  reflexivity.
Qed.

End Receive.

Lemma C2_turn_complete_does_not_exclude_model_turn_witness :
  receive Samples.base64ToArrayBuffer
    (serverContentMessage
       [turnCompleteMember;
        modelTurnMember [InlineDataPart "audio/pcm;rate=24000" "6APoAw=="; TextPart "hai"]])
  = ([EmitLog "server.send"; EmitTurnComplete;
      EmitAudio Samples.beep; EmitLog "server.audio";
      EmitContent (modelTurnMessage [partToJson (TextPart "hai")]);
      EmitLog "server.content"], Ok tt)
  /\ receive Samples.base64ToArrayBuffer
       (serverContentMessage
          [("interrupted"%string, JBool true); turnCompleteMember;
           modelTurnMember [TextPart "hai"]])
     = ([EmitLog "receive.serverContent"; EmitInterrupted], Ok tt).
Proof.
  pose proof (C2_turn_complete_does_not_exclude_model_turn
                Samples.base64ToArrayBuffer (fun d => Samples.octets (Samples.sextets d))
                (fun d => eq_refl)
                [InlineDataPart "audio/pcm;rate=24000" "6APoAw=="; TextPart "hai"]
                [("interrupted"%string, JBool true); turnCompleteMember;
                 modelTurnMember [TextPart "hai"]]
                eq_refl) as (Hboth & Hstop & _).
  split; [exact Hboth | exact Hstop].
Defined.

(** The relay's own handler for upstream messages has the same shape: a
    [turnComplete] flag does not keep the audio parts of the same message
    from being relayed to the browser, and [interrupted] relays nothing. *)
Lemma onUpstreamMessage_relays_audio_parts (s : Server) (ws : Sock) (parts : list Part) :
  serverWs s = Some ws ->
  onUpstreamMessage s (serverContentMessage [turnCompleteMember; modelTurnMember parts])
  = ([DownstreamSend ws (modelTurnMessage (map partToJson (filter isAudio parts)))], Ok tt).
Proof.
  intros Hws. unfold onUpstreamMessage.
  change (isServerContentMessage
            (Some (serverContentMessage [turnCompleteMember; modelTurnMember parts])))
    with (@Ok bool true).
  cbn [serverContentMessage get lookup String.eqb Ascii.eqb Bool.eqb JS.bind
       isInterrupted turnCompleteMember modelTurnMember truthy isTurnComplete
       isModelTurn typeof jstype_eqb audioPartsOf].
  rewrite filter_r_parts. cbn [JS.bind snd]. now rewrite Hws.
Qed.

Lemma onUpstreamMessage_interrupted (s : Server) (members : list (string * json)) :
  truthy (lookup "interrupted" members) = true ->
  onUpstreamMessage s (serverContentMessage members) = ([], Ok tt).
Proof.
  intros Hint. unfold onUpstreamMessage.
  change (isServerContentMessage (Some (serverContentMessage members)))
    with (@Ok bool true).
  cbn [serverContentMessage get lookup String.eqb Ascii.eqb Bool.eqb JS.bind
       isInterrupted].
  now rewrite Hint.
Qed.

(** * Further properties of the code *)

Import Recorder Measures.

(** ** Typed arrays and the detector *)

Lemma toInt16_range n : -32768 <= toInt16 n < 32768.
Proof.
  unfold toInt16. pose proof (Z.mod_pos_bound n 65536 eq_refl).
  destruct (Z.ltb_spec (n mod 65536) 32768); lia.
Qed.

Lemma toInt16_idempotent n : toInt16 (toInt16 n) = toInt16 n.
Proof. apply toInt16_small, toInt16_range. Qed.

Lemma Int16Array_shape (b : Buffer) :
  match Int16Array b with
  | Ok samples =>
      List.length b = (2 * List.length samples)%nat
      /\ Forall (fun s => -32768 <= s < 32768) samples
  | Throw e => e = RangeError /\ Nat.odd (List.length b) = true
  end.
Proof.
  assert (H : forall n (b : Buffer), (List.length b < n)%nat ->
            match Int16Array b with
            | Ok samples =>
                List.length b = (2 * List.length samples)%nat
                /\ Forall (fun s => -32768 <= s < 32768) samples
            | Throw e => e = RangeError /\ Nat.odd (List.length b) = true
            end).
  { induction n as [| n IH]; intros c Hc; [lia |].
    destruct c as [| lo [| hi rest]]; cbn [Int16Array].
    - split; [reflexivity | constructor].
    - now split.
    - cbn [List.length] in Hc. specialize (IH rest ltac:(lia)).
      destruct (Int16Array rest) as [samples | e].
      + destruct IH as [Hlen Hall]. split.
        * cbn [List.length]. lia.
        * constructor; [apply toInt16_range | exact Hall].
      + destruct IH as [-> Hodd]. split; [reflexivity |].
        cbn [List.length]. now rewrite Nat.odd_succ_succ. }
  apply (H (S (List.length b))). lia.
Qed.

(** X1: the detector fails, with a [RangeError], exactly when the
    [ArrayBuffer] behind the buffer has an odd number of bytes, and
    classifies every other buffer; the length of the buffer itself plays
    no part unless the buffer owns its [ArrayBuffer]. *)
Theorem X1_detector_throws_on_odd_length_only (buf : NodeBuffer) :
  match detectVoiceActivity buf with
  | Ok _ => Nat.even (List.length (arrayBuffer buf)) = true
  | Throw e => e = RangeError /\ Nat.odd (List.length (arrayBuffer buf)) = true
  end.
Proof.
  unfold detectVoiceActivity. pose proof (Int16Array_shape (arrayBuffer buf)) as H.
  destruct (Int16Array (arrayBuffer buf)) as [samples | e]; [| exact H].
  destruct H as [-> _]. rewrite Nat.even_mul. reflexivity.
Qed.

Lemma silent_whatever_the_divisor (y : float) :
  PrimFloat.ltb SILENCE_THRESHOLD (PrimFloat.sqrt (number_of_Z 0 / y)) = false.
Proof.
  rewrite ltb_spec, sqrt_spec, div_spec.
  change (Prim2SF (number_of_Z 0)) with (S754_zero false).
  destruct (Prim2SF y) as [s | s | | s m e]; reflexivity.
Qed.

Lemma Int16Array_zeros (n : nat) :
  Int16Array (repeat x00 (2 * n)) = Ok (repeat 0 n).
Proof.
  induction n as [| n IH]; [reflexivity |].
  replace (2 * S n)%nat with (S (S (2 * n))) by lia.
  cbn [repeat Int16Array]. now rewrite IH.
Qed.

(** X2: a buffer over an [ArrayBuffer] of zero samples, of any length,
    is classified silent, whatever the bytes of the buffer itself (over
    an empty [ArrayBuffer] the mean is 0/0, which compares false). *)
Theorem X2_zero_frame_is_silent (b : Buffer) (n : nat) :
  detectVoiceActivity {| bytes := b; arrayBuffer := repeat x00 (2 * n) |} = Ok false.
Proof.
  unfold detectVoiceActivity. cbn [arrayBuffer]. rewrite Int16Array_zeros.
  assert (Hsum : fold_left
                   (fun sum sample =>
                      (sum + number_of_Z sample * number_of_Z sample)%float)
                   (repeat 0 n) (number_of_Z 0) = number_of_Z 0).
  { induction n as [| n IH]; [reflexivity |]. cbn [repeat fold_left].
    change (number_of_Z 0 + number_of_Z 0 * number_of_Z 0)%float with (number_of_Z 0).
    exact IH. }
  rewrite Hsum. now rewrite silent_whatever_the_divisor.
Qed.

(** ** Segmentation *)

Lemma Subsequence_refl {A : Type} (l : list A) : Subsequence l l.
Proof. induction l; constructor; assumption. Qed.


Lemma feed_flush_budget st frames :
  vadInvariant st ->
  let '(st1, flushed) := feed st frames in
  (MIN_SILENCE_FRAMES * List.length flushed + silenceCount st1
   <= silenceCount st + countSilent frames)%nat.
Proof.
  revert st. induction frames as [| [buf v] rest IH]; intros st Hinv; cbn [feed].
  - unfold countSilent. cbn. lia.
  - pose proof (vadInvariant_ingest st buf v Hinv) as Hinv1.
    assert (Hstep : (MIN_SILENCE_FRAMES
                       * match snd (ingest st buf v) with Some _ => 1 | None => 0 end
                     + silenceCount (fst (ingest st buf v))
                     <= silenceCount st + if v then 0 else 1)%nat).
    { destruct Hinv as (_ & _ & Hlt). destruct v.
      - rewrite ingest_voiced. cbn. lia.
      - destruct (isRecording st) eqn:Hrec.
        + destruct (Nat.le_gt_cases MIN_SILENCE_FRAMES (S (silenceCount st))).
          * rewrite ingest_silent_flush by assumption. cbn [fst snd].
            destruct (MIN_VOICE_FRAMES <? _)%nat; cbn [silenceCount audioState0];
              unfold MIN_SILENCE_FRAMES in *; lia.
          * rewrite ingest_silent_recording by assumption. cbn. lia.
        + rewrite ingest_silent_idle by assumption. cbn. lia. }
    destruct (ingest st buf v) as [st1 out]. cbn [fst snd] in *.
    specialize (IH st1 Hinv1). destruct (feed st1 rest) as [st2 outs].
    unfold countSilent in *. cbn [filter snd].
    destruct v, out; cbn [negb List.length] in *; lia.
Qed.

(** X5: from the initial state every flushed buffer holds more than
    MIN_SILENCE_FRAMES frames, the silent ones that ended it included; the
    test against MIN_VOICE_FRAMES never rejects a buffer. *)
Theorem X5_flushed_buffers_include_the_silence (frames : list (Buffer * bool)) :
  Forall (fun fl => (MIN_SILENCE_FRAMES < List.length fl)%nat)
         (snd (feed audioState0 frames)).
Proof. apply feed_flushed_with_silence, reachable_init. Qed.

(** ** The downstream handler *)

Lemma prefix_app (p s : string) : String.prefix p (p ++ s) = true.
Proof.
  induction p as [| c p IH]; cbn.
  - now destruct s.
  - destruct (ascii_dec c c) as [_ | Hne]; [exact IH | now elim Hne].
Qed.

Lemma str_includes_app (pre p suf : string) :
  str_includes (pre ++ p ++ suf) p = true.
Proof.
  induction pre as [| c pre IH].
  - cbn [String.append]. destruct (p ++ suf)%string eqn:E; cbn [str_includes];
      rewrite <- E, prefix_app; reflexivity.
  - cbn [String.append str_includes]. rewrite IH. apply orb_true_r.
Qed.

Section Downstream.

Variable Buffer_from : value -> result NodeBuffer.
Variable recognize : Buffer -> result (option string).

#[local] Abbreviation onMessage := (onDownstreamMessage Buffer_from recognize).
#[local] Abbreviation loop := (forEachChunk Buffer_from recognize).

(** The loop is the detector fed with the frames of the batch, each
    flushed buffer sent for transcription. *)
Lemma forEachChunk_frames s chunks :
  audioState (fst (loop s chunks))
  = fst (feed (audioState s) (framesOf (decodeChunk Buffer_from) chunks))
  /\ recognized (snd (loop s chunks))
     = utterances (snd (feed (audioState s) (framesOf (decodeChunk Buffer_from) chunks))).
Proof.
  revert s. induction chunks as [| c chunks IH]; intros s;
    cbn [forEachChunk framesOf flat_map]; [now split |].
  fold (framesOf (decodeChunk Buffer_from) chunks).
  unfold processChunk.
  destruct (decodeChunk Buffer_from c) as [| | e | buf v];
    try (specialize (IH s); destruct (loop s chunks) as [s2 e2]; exact IH).
  cbn [app feed].
  destruct (ingest (audioState s) buf v) as [st out].
  specialize (IH (withAudioState s st)). cbn [audioState withAudioState] in IH.
  destruct (loop (withAudioState s st) chunks) as [s2 e2].
  destruct (feed st (framesOf (decodeChunk Buffer_from) chunks)) as [st2 outs].
  cbn [fst snd] in *. destruct IH as [-> IH]. split; [reflexivity |].
  unfold recognized in *. rewrite flat_map_app, IH.
  destruct out as [fr |]; [| reflexivity].
  unfold processSpeechToText, sendTranscription. cbn [flat_map app utterances map].
  destruct (recognize (Buffer_concat fr)) as [[t |] | e]; cbn; try reflexivity.
  destruct (negb (t =? "")%string); cbn; [| reflexivity].
  now destruct (serverWs s).
Qed.


(** X4: as long as every transcription is answered before the next chunk
    is handled, each request costs ten silent frames: the number of
    requests the loop makes, times MIN_SILENCE_FRAMES, never exceeds the
    number of silent frames in the batch. *)
Theorem X4_one_flush_per_ten_silent_frames (s : Server) (chunks : list json) :
  audioState s = audioState0 ->
  (MIN_SILENCE_FRAMES * List.length (recognized (snd (forEachChunk Buffer_from recognize s chunks)))
   <= countSilent (framesOf (decodeChunk Buffer_from) chunks))%nat.
Proof.
  intros Hst. pose proof (forEachChunk_frames s chunks) as [_ Hr].
  rewrite Hr, Hst. unfold utterances. rewrite length_map.
  pose proof (feed_flush_budget audioState0 (framesOf (decodeChunk Buffer_from) chunks)
                vadInvariant_init) as H.
  destruct (feed audioState0 _) as [st flushed].
  cbn [snd silenceCount audioState0] in *. lia.
Qed.















(** X10: the detector's state is one for all browsers: voiced chunks from
    one socket followed by ten silent chunks from another are flushed as a
    single utterance holding the frames of both. *)
Theorem X10_one_detector_for_all_clients
  (s : Server) (ws1 ws2 : Sock) (chunks1 chunks2 : list json)
  (v : Buffer) (vs ss : list Buffer) :
  existsb (Nat.eqb ws1) (sessions s) = true ->
  existsb (Nat.eqb ws2) (sessions s) = true ->
  audioState s = audioState0 ->
  map (decodeChunk Buffer_from) chunks1 = map frameOutcome (voicedFrames (v :: vs)) ->
  map (decodeChunk Buffer_from) chunks2 = map frameOutcome (silentFrames ss) ->
  List.length ss = 10%nat ->
  recognized
    (snd (run Buffer_from recognize s
            [DownstreamMessage ws1 (clientBatch chunks1);
             DownstreamMessage ws2 (clientBatch chunks2)]))
  = [Buffer_concat (v :: vs ++ ss)].
Proof.
  intros H1 H2 Hst Hc1 Hc2 Hss. cbn [run handle]. rewrite H1.
  rewrite (onDownstreamMessage_batch _ _ s (clientBatch chunks1) chunks1 eq_refl).
  cbn [fst].
  pose proof (forEachChunk_feed Buffer_from recognize s chunks1 _ Hc1) as [Ha1 Hr1].
  pose proof (forEachChunk_sockets Buffer_from recognize s chunks1) as [_ Hs1].
  destruct (loop s chunks1) as [s1 e1]. cbn [fst snd] in *.
  rewrite Hs1, H2.
  rewrite (onDownstreamMessage_batch _ _ s1 (clientBatch chunks2) chunks2 eq_refl).
  cbn [fst snd].
  pose proof (forEachChunk_feed Buffer_from recognize s1 chunks2 _ Hc2) as [Ha2 Hr2].
  destruct (loop s1 chunks2) as [s2 e2]. cbn [fst snd] in *.
  pose proof (burst_then_silence_flushed v vs ss Hss) as Hburst.
  rewrite feed_app in Hburst. rewrite Hst in *.
  destruct (feed audioState0 (voicedFrames (v :: vs))) as [sta o1]. cbn [fst snd] in *.
  rewrite Ha1 in *. destruct (feed sta (silentFrames ss)) as [stb o2]. cbn [fst snd] in *.
  injection Hburst as _ Ho.
  unfold recognized in *. cbn [flat_map app]. rewrite !flat_map_app, app_nil_r.
  cbn [flat_map app]. rewrite Hr1, Hr2. unfold utterances. rewrite <- map_app, Ho.
  reflexivity.
Qed.

End Downstream.


Lemma X4_one_flush_per_ten_silent_frames_witness :
  let chunks := Samples.loudChunk :: repeat Samples.quietChunk 10 in
  (MIN_SILENCE_FRAMES
   * List.length
       (recognized
          (snd (forEachChunk Samples.Buffer_from Samples.recognize Samples.oneClient chunks)))
   <= countSilent (framesOf (decodeChunk Samples.Buffer_from) chunks))%nat.
Proof.
  exact (X4_one_flush_per_ten_silent_frames
           Samples.Buffer_from Samples.recognize Samples.oneClient
           (Samples.loudChunk :: repeat Samples.quietChunk 10) eq_refl).
Defined.




Lemma X10_one_detector_for_all_clients_witness :
  recognized
    (snd (run Samples.Buffer_from Samples.recognize Scenes.twoClients
            [DownstreamMessage 1%nat (clientBatch [Samples.loudChunk; Samples.loudChunk]);
             DownstreamMessage 2%nat (clientBatch (repeat Samples.quietChunk 10))]))
  = [Buffer_concat (Samples.loud :: [Samples.loud] ++ repeat Samples.quiet 10)].
Proof.
  apply (X10_one_detector_for_all_clients
           Samples.Buffer_from Samples.recognize Scenes.twoClients 1%nat 2%nat
           [Samples.loudChunk; Samples.loudChunk] (repeat Samples.quietChunk 10)
           Samples.loud [Samples.loud] (repeat Samples.quiet 10)).
  - reflexivity.
  - reflexivity.
  - reflexivity.
  - cbn [map voicedFrames frameOutcome fst snd]. now rewrite decode_loudChunk.
  - cbn [map repeat silentFrames frameOutcome fst snd]. now rewrite decode_quietChunk.
  - reflexivity.
Defined.

(** ** The upstream handler of the relay *)

Lemma filter_r_keeps (f : json -> result bool) (l kept : list json) :
  filter_r f l = Ok kept -> kept = filter (keeps f) l.
Proof.
  revert kept. induction l as [| x l IH]; intros kept; cbn [filter_r filter].
  - intros E. now injection E as <-.
  - unfold keeps at 1. destruct (f x) as [b | e]; cbn [JS.bind]; [| discriminate].
    destruct (filter_r f l) as [k | e]; cbn [JS.bind]; [| discriminate].
    intros E. injection E as <-. rewrite (IH k eq_refl). now destruct b.
Qed.

Lemma upstream_relay_shape (s : Server) (response : json) :
  fst (onUpstreamMessage s response) = []
  \/ exists ws serverContent parts,
       serverWs s = Some ws
       /\ get (Some response) "serverContent" = Ok serverContent
       /\ (modelTurn <- get serverContent "modelTurn" ;; get modelTurn "parts")%js
          = Ok (Some (JArr parts))
       /\ fst (onUpstreamMessage s response)
          = [DownstreamSend ws (modelTurnMessage (filter (keeps isAudioPart) parts))].
Proof.
  unfold onUpstreamMessage.
  destruct (isServerContentMessage (Some response)) as [[|] | e]; try (now left).
  destruct (get (Some response) "serverContent") as [sc | e]; cbn [JS.bind]; [| now left].
  destruct (isInterrupted sc) as [[|] | e]; cbn [JS.bind]; try (now left).
  destruct (isTurnComplete sc) as [tc | e]; cbn [JS.bind]; [| now left].
  destruct (isModelTurn sc) as [[|] | e]; cbn [JS.bind]; try (now left).
  unfold audioPartsOf.
  destruct (get sc "modelTurn") as [mt | e] eqn:Em; cbn [JS.bind]; [| now left].
  destruct (get mt "parts") as [[[| | | | ps |] |] | e] eqn:Ep; cbn [JS.bind];
    try (now left).
  destruct (filter_r isAudioPart ps) as [audio | e] eqn:Ef; cbn [JS.bind snd]; [| now left].
  destruct (serverWs s) as [ws |]; [| now left].
  right. exists ws, sc, ps. rewrite (filter_r_keeps _ _ _ Ef).
  repeat split. now rewrite Em.
Qed.


(** X13: the chunk loop looks for audio/pcm anywhere in the MIME type: a
    chunk whose type contains it, whatever comes before or after, goes on
    to decoding and detection, and a chunk whose type is a string without
    it is left out as unsupported whatever its data. *)
Theorem X13_mime_type_is_searched_not_matched
  (Buffer_from : value -> result NodeBuffer) (pre suf m : string) (d : json) :
  str_includes m "audio/pcm" = false ->
  decodeChunk Buffer_from
    (JObj [("mimeType"%string, JStr (pre ++ "audio/pcm" ++ suf)); ("data"%string, d)])
  = match Buffer_from (Some d) with
    | Throw e => Threw e
    | Ok buf =>
        match detectVoiceActivity buf with
        | Ok v => Frame (bytes buf) v
        | Throw e => Threw e
        end
    end
  /\ decodeChunk Buffer_from (JObj [("mimeType"%string, JStr m); ("data"%string, d)])
     = Unsupported.
Proof.
  intros Hm. unfold decodeChunk.
  cbn [truthy typeof jstype_eqb negb orb has lookup String.eqb Ascii.eqb Bool.eqb
       get JS.bind includes].
  rewrite str_includes_app, Hm. split; [| reflexivity].
  destruct (Buffer_from (Some d)) as [buf | e]; [| reflexivity].
  cbn [JS.bind]. now destruct (detectVoiceActivity buf).
Qed.

Lemma X13_mime_type_is_searched_not_matched_witness :
  decodeChunk Samples.Buffer_from
    (JObj [("mimeType"%string, JStr "x-audio/pcm;rate=16000");
           ("data"%string, JStr Samples.loudText)])
  = Frame Samples.loud true
  /\ decodeChunk Samples.Buffer_from
       (JObj [("mimeType"%string, JStr "audio/wav"); ("data"%string, JStr Samples.loudText)])
     = Unsupported.
Proof.
  pose proof (X13_mime_type_is_searched_not_matched
                Samples.Buffer_from "x-" ";rate=16000" "audio/wav"
                (JStr Samples.loudText) eq_refl) as [Hyes Hno].
  split; [| exact Hno].
  etransitivity; [exact Hyes |]. vm_compute. reflexivity.
Defined.

(** ** Samples on their way in and out *)

Lemma float32ToPCM16_in_range (n : Z) (d : positive) :
  - Zpos d <= n <= Zpos d ->
  float32ToPCM16 (n # d) = Z.quot (n * 32767) (Zpos d).
Proof.
  intros Hn. destruct (Qtrunc_scaled_bounds n d Hn) as [Ht _].
  unfold float32ToPCM16, Qtrunc. cbn [Qmult Qnum Qden].
  rewrite Pos.mul_1_r. now apply toInt16_small; lia.
Qed.

Lemma Q_unit_interval (n : Z) (d : positive) :
  (-1 <= n # d <= 1)%Q -> - Zpos d <= n <= Zpos d.
Proof. unfold Qle. cbn. lia. Qed.

(** X14: a sample in [-1, 1] is recorded without wrapping: the stored
    value lies between -32767 and 32767 and has the sign of the sample. *)
Theorem X14_in_range_samples_do_not_wrap (x : Q) :
  (-1 <= x <= 1)%Q ->
  -32767 <= float32ToPCM16 x <= 32767
  /\ ((0 <= x)%Q -> 0 <= float32ToPCM16 x)
  /\ ((x <= 0)%Q -> float32ToPCM16 x <= 0).
Proof.
  intros Hx. destruct x as [n d]. pose proof (Q_unit_interval n d Hx) as Hn.
  rewrite float32ToPCM16_in_range by assumption.
  destruct (Qtrunc_scaled_bounds n d Hn) as [Ht _].
  split; [exact Ht |]. unfold Qle. cbn [Qnum Qden]. split; intros Hs.
  - apply Z.quot_pos; lia.
  - rewrite <- (Z.opp_involutive (n * 32767)), Z.quot_opp_l by lia.
    assert (0 <= Z.quot (- (n * 32767)) (Zpos d)) by (apply Z.quot_pos; lia). lia.
Qed.

Lemma X14_in_range_samples_do_not_wrap_witness :
  -32767 <= float32ToPCM16 (-1) <= 32767.
Proof.
  apply (X14_in_range_samples_do_not_wrap (-1)). split; discriminate.
Defined.

(** X15: recording and playing back never makes a sample larger, and only
    silence comes back unchanged. *)
Theorem X15_round_trip_attenuates (x : Q) :
  (-1 <= x <= 1)%Q ->
  (Qabs (roundTrip x) <= Qabs x)%Q
  /\ (roundTrip x == x -> x == 0)%Q.
Proof.
  intros Hx. destruct x as [n d]. pose proof (Q_unit_interval n d Hx) as Hn.
  unfold roundTrip. rewrite float32ToPCM16_in_range by assumption.
  pose proof (Z.quot_rem' (n * 32767) (Zpos d)) as E.
  set (t := Z.quot (n * 32767) (Zpos d)) in *.
  assert (Hsign : (0 <= n -> 0 <= t /\ t * Zpos d <= 32767 * n)
                  /\ (n <= 0 -> t <= 0 /\ 32767 * n <= t * Zpos d)).
  { split; intros Hs.
    - assert (0 <= Z.rem (n * 32767) (Zpos d) < Zpos d)
        by (apply Z.rem_bound_pos; lia).
      split; [apply Z.quot_pos; lia | lia].
    - assert (- Zpos d < Z.rem (n * 32767) (Zpos d) <= 0)
        by (apply Z.rem_bound_pos_neg; lia).
      split; [| lia].
      unfold t. rewrite <- (Z.opp_involutive (n * 32767)), Z.quot_opp_l by lia.
      assert (0 <= Z.quot (- (n * 32767)) (Zpos d)) by (apply Z.quot_pos; lia). lia. }
  unfold pcm16ToFloat32, Qabs, Qle, Qeq, Qdiv, Qmult, Qinv, inject_Z.
  cbn [Qnum Qden]. rewrite ?Pos.mul_1_l, ?Z.mul_1_r.
  destruct Hsign as [Hpos Hneg]. split.
  - destruct (Z_lt_le_dec n 0); [destruct Hneg; lia | destruct Hpos; lia].
  - destruct (Z_lt_le_dec n 0); [destruct Hneg; lia | destruct Hpos; lia].
Qed.

Lemma X15_round_trip_attenuates_witness :
  (Qabs (roundTrip (1 # 2)) <= Qabs (1 # 2))%Q.
Proof.
  apply (X15_round_trip_attenuates (1 # 2)). split; discriminate.
Defined.

(** X16: samples are not clamped: one just above full scale, with
    32768 <= 32767 x < 65536, wraps around to a negative value. *)
Theorem X16_samples_above_full_scale_wrap (x : Q) :
  (32768 # 32767 <= x)%Q -> (x < 65536 # 32767)%Q ->
  float32ToPCM16 x = Qtrunc (x * 32767) - 65536
  /\ -32768 <= float32ToPCM16 x < 0.
Proof.
  intros Hlo Hhi. destruct x as [n d]. unfold Qle, Qlt in *. cbn [Qnum Qden] in *.
  unfold float32ToPCM16, Qtrunc. cbn [Qmult Qnum Qden]. rewrite Pos.mul_1_r.
  pose proof (Z.quot_rem' (n * 32767) (Zpos d)) as E.
  assert (0 <= Z.rem (n * 32767) (Zpos d) < Zpos d)
    by (apply Z.rem_bound_pos; lia).
  set (t := Z.quot (n * 32767) (Zpos d)) in *.
  assert (Ht : 32768 <= t < 65536) by nia.
  unfold toInt16. rewrite Z.mod_small by lia.
  destruct (Z.ltb_spec t 32768); lia.
Qed.

Lemma X16_samples_above_full_scale_wrap_witness :
  float32ToPCM16 (3 # 2) = -16386.
Proof.
  destruct (X16_samples_above_full_scale_wrap (3 # 2)) as [H _];
    [discriminate | reflexivity |]. exact H.
Defined.

(** X17: playback decodes a buffer of even length into half as many
    samples, each in [-1, 1), and throws a [RangeError] on a buffer of odd
    length. *)
Theorem X17_playback_samples_are_normalised (pcm : Buffer) :
  match convertPCM16LEToFloat32 pcm with
  | Ok samples =>
      List.length pcm = (2 * List.length samples)%nat
      /\ Forall (fun y => (-1 <= y)%Q /\ (y < 1)%Q) samples
  | Throw e => e = RangeError /\ Nat.odd (List.length pcm) = true
  end.
Proof.
  unfold convertPCM16LEToFloat32. pose proof (Int16Array_shape pcm) as H.
  destruct (Int16Array pcm) as [samples | e]; [| exact H].
  destruct H as [Hlen Hall]. rewrite length_map. split; [exact Hlen |].
  apply Forall_map. eapply Forall_impl; [| exact Hall].
  cbn beta. intros s Hs.
  unfold pcm16ToFloat32, Qle, Qlt, Qdiv, Qmult, Qinv, inject_Z. cbn. lia.
Qed.

Lemma to_N_byte_of_Z (n : Z) : Z.of_N (Byte.to_N (byte_of_Z n)) = n mod 256.
Proof.
  unfold byte_of_Z. pose proof (Z.mod_pos_bound n 256 eq_refl) as Hb.
  destruct (Byte.of_N (Z.to_N (n mod 256))) as [b |] eqn:E.
  - apply Byte.to_of_N in E. rewrite E. lia.
  - apply Byte.of_N_None_iff in E. lia.
Qed.

Lemma int16_le_setInt16 (v : Z) :
  int16_le (byte_of_Z (v mod 65536)) (byte_of_Z (v mod 65536 / 256)) = toInt16 v.
Proof.
  unfold int16_le. rewrite !to_N_byte_of_Z.
  pose proof (Z.mod_pos_bound v 65536 eq_refl) as Hu.
  set (u := v mod 65536) in *.
  assert (Hhi : 0 <= u / 256 < 256)
    by (split; [apply Z.div_pos; lia | apply Z.div_lt_upper_bound; lia]).
  rewrite (Z.mod_small (u / 256)) by exact Hhi.
  replace (u mod 256 + 256 * (u / 256)) with u
    by (rewrite (Z.div_mod u 256) at 1; lia).
  unfold toInt16, u. now rewrite Z.mod_mod by lia.
Qed.

Lemma Int16Array_encodePCM (samples : list Z) :
  Int16Array (encodePCM samples) = Ok (map toInt16 samples).
Proof.
  induction samples as [| v samples IH]; [reflexivity |].
  unfold encodePCM in *. cbn [flat_map setInt16 app Int16Array map].
  now rewrite IH, int16_le_setInt16.
Qed.

Lemma encodePCM_app a b : encodePCM (a ++ b) = encodePCM a ++ encodePCM b.
Proof. apply flat_map_app. Qed.

Lemma length_encodePCM (samples : list Z) :
  List.length (encodePCM samples) = (2 * List.length samples)%nat.
Proof.
  unfold encodePCM. induction samples as [| v samples IH]; [reflexivity |].
  cbn [flat_map setInt16 app List.length]. rewrite IH. lia.
Qed.

Section Recording.

Variable argumentLimit : nat.

#[local] Abbreviation tick := (recordChunk argumentLimit).
#[local] Abbreviation run := (record argumentLimit).

Lemma record_stream (m : LiveAudioInputManager) (events : list micEvent) :
  let '(m1, chunks) := run m events in
  Buffer_concat chunks ++ encodePCM (pcmData m1)
  = encodePCM (pcmData m ++ captured events).
Proof.
  revert m. induction events as [| [inputData |] events IH]; intros m; cbn [record].
  - cbn. now rewrite app_nil_r.
  - specialize (IH (onaudioprocess m inputData)).
    destruct (run (onaudioprocess m inputData) events) as [m1 chunks].
    rewrite IH. cbn [onaudioprocess pcmData captured flat_map].
    now rewrite app_assoc.
  - unfold recordChunk.
    destruct (argumentLimit <? List.length (encodePCM (pcmData m)))%nat.
    + specialize (IH m). destruct (run m events) as [m1 chunks].
      rewrite IH. reflexivity.
    + specialize (IH {| pcmData := [] |}).
      destruct (run {| pcmData := [] |} events) as [m1 chunks].
      cbn [Buffer_concat List.concat]. rewrite <- app_assoc.
      fold (Buffer_concat chunks). rewrite IH. cbn [pcmData app captured flat_map].
      now rewrite encodePCM_app.
Qed.

Lemma captured_in_range (events : list micEvent) :
  map toInt16 (captured events) = captured events.
Proof.
  unfold captured. induction events as [| [inputData |] events IH]; cbn [flat_map].
  - reflexivity.
  - rewrite map_app, IH. f_equal. unfold float32ArrayToPCM16.
    rewrite map_map. apply map_ext. intros x. apply toInt16_idempotent.
  - exact IH.
Qed.

(** Once the queue is too long for a chunk, it stays so: nothing empties
    it, and no chunk is handed over any more. *)
Lemma record_stuck (m : LiveAudioInputManager) (events : list micEvent) :
  (argumentLimit < 2 * List.length (pcmData m))%nat ->
  snd (run m events) = [].
Proof.
  revert m. induction events as [| [inputData |] events IH]; intros m Hm; cbn [record].
  - reflexivity.
  - apply IH. cbn [onaudioprocess pcmData]. rewrite length_app. lia.
  - unfold recordChunk. rewrite length_encodePCM.
    destruct (Nat.ltb_spec argumentLimit (2 * List.length (pcmData m))); [| lia].
    specialize (IH m Hm). destruct (run m events) as [m1 chunks]. exact IH.
Qed.

(** X18: the recorder neither loses nor repeats a sample: over any run of
    sample blocks and timer ticks from a fresh recorder, the chunks
    handed over, followed by what is still queued, decode to the samples
    captured, in order, also when ticks have failed on the way.  But once
    a tick has found the queue too long for one call, no later tick
    hands anything over. *)
Theorem X18_recorder_emits_each_sample_once (events : list micEvent) :
  let '(m, chunks) := record argumentLimit newInputManager events in
  Int16Array (Buffer_concat chunks ++ encodePCM (pcmData m)) = Ok (captured events)
  /\ Forall (fun chunk => (List.length chunk <= argumentLimit)%nat) chunks
  /\ forall later,
       (argumentLimit < 2 * List.length (pcmData m))%nat ->
       snd (record argumentLimit m later) = [].
Proof.
  assert (Hsmall : forall m,
             Forall (fun chunk => (List.length chunk <= argumentLimit)%nat)
                    (snd (run m events))).
  { induction events as [| [inputData |] rest IH]; intros m; cbn [record].
    - cbn [snd]. constructor.
    - apply IH.
    - unfold recordChunk.
      destruct (Nat.ltb_spec argumentLimit (List.length (encodePCM (pcmData m)))).
      + specialize (IH m). now destruct (run m rest).
      + specialize (IH {| pcmData := [] |}).
        destruct (run {| pcmData := [] |} rest) as [m1 chunks]. cbn [snd] in *.
        now constructor. }
  specialize (Hsmall newInputManager).
  pose proof (record_stream newInputManager events) as H.
  destruct (run newInputManager events) as [m chunks]. cbn [snd] in Hsmall.
  split; [| split; [exact Hsmall | intros later; apply record_stuck]].
  rewrite H. cbn [newInputManager pcmData app].
  now rewrite Int16Array_encodePCM, captured_in_range.
Qed.

(** X19: what the output manager plays for a chunk the input manager
    recorded from one block is the round trip of each sample of the
    block; nothing is lost to the byte encoding in between.  The chunk
    exists unless the block has more bytes than one call takes
    arguments; then [recordChunk] throws a [RangeError] and keeps the
    queue. *)
Theorem X19_recorded_chunk_plays_back_as_round_trip (inputData : list Q) :
  let m := onaudioprocess newInputManager inputData in
  if (argumentLimit <? 2 * List.length inputData)%nat
  then recordChunk argumentLimit m = (m, Throw RangeError)
  else exists chunk,
         recordChunk argumentLimit m = (newInputManager, Ok chunk)
         /\ convertPCM16LEToFloat32 chunk = Ok (map roundTrip inputData).
Proof.
  cbv zeta. unfold recordChunk. rewrite length_encodePCM.
  cbn [onaudioprocess pcmData newInputManager app].
  assert (Hlen : List.length (float32ArrayToPCM16 inputData) = List.length inputData)
    by (unfold float32ArrayToPCM16; apply length_map).
  rewrite Hlen.
  destruct (argumentLimit <? 2 * List.length inputData)%nat; [reflexivity |].
  eexists. split; [reflexivity |].
  unfold convertPCM16LEToFloat32. rewrite Int16Array_encodePCM. f_equal.
  unfold float32ArrayToPCM16, roundTrip. rewrite !map_map.
  apply map_ext. intros x. unfold float32ToPCM16. now rewrite toInt16_idempotent.
Qed.

End Recording.

(** ** The client's socket *)

(** X20: a close or error event from a socket that is no longer the
    current one leaves the client connected; the close event is passed on
    to the listeners all the same. *)
Theorem X20_stale_socket_events_do_not_disconnect (c : Client) (w stale : Sock) :
  ws c = Some w ->
  stale <> w ->
  onClose c stale = (c, ([EmitLog "server.close"; EmitClose], Ok tt))
  /\ onError c stale = (c, ([EmitLog "server.error"], Ok tt)).
Proof.
  intros Hw Hne. unfold onClose, onError, disconnect. rewrite Hw.
  destruct (Nat.eqb_spec stale w) as [-> | _]; [now elim Hne |]. now split.
Qed.

Lemma X20_stale_socket_events_do_not_disconnect_witness :
  let c := {| ws := Some 2%nat; config := Some (JObj []) |} in
  onClose c 1%nat = (c, ([EmitLog "server.close"; EmitClose], Ok tt))
  /\ onError c 1%nat = (c, ([EmitLog "server.error"], Ok tt)).
Proof.
  apply (X20_stale_socket_events_do_not_disconnect
           {| ws := Some 2%nat; config := Some (JObj []) |} 2%nat 1%nat eq_refl).
  discriminate.
Defined.

(** X21: [disconnect()] closes the current socket once: called again,
    with or without an argument, it does nothing and returns [false], and
    the stored configuration survives. *)
Theorem X21_disconnect_is_idempotent (c : Client) (arg : option Sock) :
  let c1 := fst (disconnect c None) in
  disconnect c1 arg = (c1, ([], Ok false))
  /\ config c1 = config c
  /\ transmissions (fst (snd (disconnect c None))) = []
  /\ List.length (filter touchesSocket (fst (snd (disconnect c None))))
     = match ws c with Some _ => 1%nat | None => 0%nat end.
Proof.
  unfold disconnect. destruct (ws c) as [w |] eqn:E; cbn [fst snd ws config].
  - repeat split.
  - rewrite E. repeat split.
Qed.

(** X22: when a socket opens, it becomes the current socket and the only
    frame transmitted is the setup message, on that socket, with the
    configuration the client holds at that moment: that of the latest
    [connect], which need not be the one that created the socket. *)
Theorem X22_setup_is_sent_on_open (c : Client) (cfg : json) (w : Sock) :
  config c = Some cfg ->
  truthy (Some cfg) = true ->
  let '(c1, (events, outcome)) := onOpen c w in
  ws c1 = Some w
  /\ config c1 = Some cfg
  /\ transmissions events = [(w, JObj [("setup"%string, cfg)])]
  /\ outcome = Ok tt.
Proof.
  intros Hcfg Htruthy. unfold onOpen. rewrite Hcfg, Htruthy.
  cbv -[truthy]. repeat split.
Qed.

Lemma X22_setup_is_sent_on_open_witness :
  let first := JObj [("model"%string, JStr "first")] in
  let second := JObj [("model"%string, JStr "second")] in
  let c := fst (connect (fst (connect newClient first 1%nat)) second 2%nat) in
  let '(c1, (events, outcome)) := onOpen c 1%nat in
  ws c1 = Some 1%nat
  /\ config c1 = Some second
  /\ transmissions events = [(1%nat, JObj [("setup"%string, second)])]
  /\ outcome = Ok tt.
Proof.
  exact (X22_setup_is_sent_on_open
           (fst (connect (fst (connect newClient (JObj [("model"%string, JStr "first")])
                                 1%nat))
                   (JObj [("model"%string, JStr "second")]) 2%nat))
           (JObj [("model"%string, JStr "second")]) 1%nat eq_refl eq_refl).
Defined.

(** ** Dispatch, beyond well-formed messages *)

Lemma socketFree_andThen {A B} (m : action A) (k : A -> action B) :
  socketFree m -> (forall a, socketFree (k a)) -> socketFree (andThen m k).
Proof.
  unfold socketFree, andThen. destruct m as [es [a | e]]; cbn [fst]; intros Hm Hk.
  - specialize (Hk a). destruct (k a) as [es' r]. cbn [fst] in *.
    rewrite existsb_app, Hm, Hk. reflexivity.
  - exact Hm.
Qed.

Lemma socketFree_lift {A} (r : result A) : socketFree (lift r).
Proof. reflexivity. Qed.

Lemma socketFree_ret {A} (a : A) : socketFree (ret a).
Proof. reflexivity. Qed.

Lemma socketFree_when b (m : action unit) : socketFree m -> socketFree (when b m).
Proof. destruct b; [auto | intros _; reflexivity]. Qed.

Lemma socketFree_emit (e : event) : touchesSocket e = false -> socketFree (emit e).
Proof. unfold socketFree. cbn. intros ->. reflexivity. Qed.

Ltac socket_free :=
  repeat lazymatch goal with
         | |- socketFree (andThen _ _) => apply socketFree_andThen; [| intros ? ]
         | |- socketFree (when _ _) => apply socketFree_when
         | |- socketFree (lift _) => apply socketFree_lift
         | |- socketFree (ret _) => apply socketFree_ret
         | |- socketFree (log _) => apply socketFree_emit; reflexivity
         | |- socketFree (emit _) => apply socketFree_emit; reflexivity
         end.

Section Dispatch.

Variable base64ToArrayBuffer : value -> result Buffer.

Lemma socketFree_emitAudio base64s : socketFree (emitAudio base64ToArrayBuffer base64s).
Proof.
  induction base64s as [| b64 rest IH]; cbn [emitAudio]; [reflexivity |].
  apply socketFree_andThen; [| intros _; exact IH].
  apply socketFree_when. socket_free.
Qed.

Lemma socketFree_receiveModelTurn sc :
  socketFree (receiveModelTurn base64ToArrayBuffer sc).
Proof.
  unfold receiveModelTurn.
  apply socketFree_andThen; [socket_free | intros [parts audio]].
  apply socketFree_andThen; [socket_free | intros base64s].
  apply socketFree_andThen; [apply socketFree_emitAudio | intros _].
  destruct (difference parts); socket_free.
Qed.

Lemma socketFree_receiveServerContent r :
  socketFree (receiveServerContent base64ToArrayBuffer r).
Proof.
  unfold receiveServerContent.
  apply socketFree_andThen; [socket_free | intros sc].
  apply socketFree_andThen; [socket_free | intros [|]]; [socket_free |].
  apply socketFree_andThen; [socket_free | intros tc].
  apply socketFree_andThen; [socket_free | intros _].
  apply socketFree_andThen; [socket_free | intros mt].
  apply socketFree_when, socketFree_receiveModelTurn.
Qed.

(** X23: handling a message never writes to, closes or opens a socket,
    whatever the message holds and whether or not handling it throws. *)
Theorem X23_receive_leaves_the_socket_alone (response : json) :
  existsb touchesSocket (fst (receive base64ToArrayBuffer response)) = false.
Proof.
  change (socketFree (receive base64ToArrayBuffer response)). unfold receive.
  apply socketFree_andThen; [socket_free | intros [|]]; [socket_free |].
  apply socketFree_andThen; [socket_free | intros [|]]; [socket_free |].
  apply socketFree_andThen; [socket_free | intros sc].
  apply socketFree_andThen; [socket_free | intros _].
  apply socketFree_andThen; [socket_free | intros isSc].
  apply socketFree_when, socketFree_receiveServerContent.
Qed.

(** X24: a tool call ends the handling of its message: the tool-call
    event is all that is emitted, and server content carried by the same
    message is not looked at. *)
Theorem X24_tool_call_ends_dispatch (response : json) :
  isToolCallMessage (Some response) = Ok true ->
  exists payload,
    get (Some response) "toolCall" = Ok payload
    /\ receive base64ToArrayBuffer response
       = ([EmitLog "server.toolCall"; EmitToolCall payload], Ok tt).
Proof.
  intros H. unfold receive. rewrite H, andThen_lift_ok.
  unfold isToolCallMessage, prop in H.
  destruct (jstype_eqb (typeof (Some response)) TObject); [| discriminate].
  destruct (get (Some response) "toolCall") as [payload | e]; [| discriminate].
  exists payload. split; [reflexivity |].
  unfold log. rewrite andThen_emit, andThen_lift_ok. reflexivity.
Qed.

(** X25: the turn-complete event depends on the type of [turnComplete],
    not on its value: any boolean, [false] included, raises it, and any
    other value does not. *)
Theorem X25_turn_complete_is_tested_by_type (v : json) :
  receive base64ToArrayBuffer (serverContentMessage [("turnComplete"%string, v)])
  = (match v with
     | JBool _ => [EmitLog "server.send"; EmitTurnComplete]
     | _ => []
     end, Ok tt).
Proof.
  rewrite receive_serverContentMessage. unfold receiveServerContent.
  change (get (Some (serverContentMessage [("turnComplete"%string, v)])) "serverContent")
    with (@Ok value (Some (JObj [("turnComplete"%string, v)]))).
  rewrite andThen_lift_ok.
  change (isInterrupted (Some (JObj [("turnComplete"%string, v)]))) with (@Ok bool false).
  rewrite andThen_lift_ok.
  change (isModelTurn (Some (JObj [("turnComplete"%string, v)]))) with (@Ok bool false).
  change (isTurnComplete (Some (JObj [("turnComplete"%string, v)])))
    with (@Ok bool (jstype_eqb (typeof (Some v)) TBoolean)).
  rewrite andThen_lift_ok.
  destruct v; reflexivity.
Qed.

(** X26: a setup-complete notice does not end the handling of its
    message: its event is emitted and the server content of the same
    message is then handled as if it had come alone. *)
Theorem X26_setup_complete_does_not_end_dispatch
  (setup members : list (string * json)) :
  let alone := receive base64ToArrayBuffer (serverContentMessage members) in
  receive base64ToArrayBuffer
    (JObj [("setupComplete"%string, JObj setup); ("serverContent"%string, JObj members)])
  = ([EmitLog "server.send"; EmitSetupComplete] ++ fst alone, snd alone).
Proof.
  cbv zeta. rewrite receive_serverContentMessage. unfold receive.
  set (r := JObj [("setupComplete"%string, JObj setup);
                  ("serverContent"%string, JObj members)]).
  change (isToolCallMessage (Some r)) with (@Ok bool false).
  rewrite andThen_lift_ok.
  change (isToolCallCancellationMessage (Some r)) with (@Ok bool false).
  rewrite andThen_lift_ok.
  change (isSetupCompleteMessage (Some r)) with (@Ok bool true).
  rewrite andThen_lift_ok. cbn [when].
  change (isServerContenteMessage (Some r)) with (@Ok bool true).
  rewrite andThen_lift_ok. cbn [when].
  change (log "server.send" ;;; emit EmitSetupComplete)%action
    with ([EmitLog "server.send"; EmitSetupComplete], @Ok unit tt).
  rewrite andThen_events_ok.
  assert (E : receiveServerContent base64ToArrayBuffer (Some r)
              = receiveServerContent base64ToArrayBuffer
                  (Some (serverContentMessage members))) by reflexivity.
  now rewrite E.
Qed.

End Dispatch.

Lemma X24_tool_call_ends_dispatch_witness :
  exists payload,
    receive Samples.base64ToArrayBuffer
      (JObj [("toolCall"%string, JObj []);
             ("serverContent"%string, JObj [turnCompleteMember])])
    = ([EmitLog "server.toolCall"; EmitToolCall payload], Ok tt).
Proof.
  destruct (X24_tool_call_ends_dispatch Samples.base64ToArrayBuffer
              (JObj [("toolCall"%string, JObj []);
                     ("serverContent"%string, JObj [turnCompleteMember])])
              eq_refl) as (payload & _ & H).
  exists payload. exact H.
Defined.

(** ** The detector inside the server *)

Section ServerInvariant.

Variable Buffer_from : value -> result NodeBuffer.
Variable recognize : Buffer -> result (option string).

Lemma advance_steady st buf v : steady st -> steady (fst (advance st buf v)).
Proof.
  intros Hst. unfold advance. destruct v; cbn [fst].
  - split; cbn; [discriminate |]. intros _. rewrite length_app. cbn. lia.
  - destruct (isRecording st) eqn:E; [| exact Hst].
    destruct Hst as [_ Hrec]. specialize (Hrec E).
    assert (Hpushed : steady {| isRecording := true; buffer := buffer st ++ [buf];
                                silenceCount := S (silenceCount st) |}).
    { split; cbn; [discriminate |]. intros _. rewrite length_app. cbn. lia. }
    cbn [silenceCount buffer].
    destruct (MIN_SILENCE_FRAMES <=? S (silenceCount st))%nat; [| exact Hpushed].
    destruct (MIN_VOICE_FRAMES <? List.length (buffer st ++ [buf]))%nat; [exact Hpushed |].
    cbn. split; [now split | discriminate].
Qed.

Lemma advance_waits st buf v :
  snd (advance st buf v) = true
  \/ (silenceCount (fst (advance st buf v)) < MIN_SILENCE_FRAMES)%nat
  \/ fst (advance st buf v) = st.
Proof.
  unfold advance, MIN_SILENCE_FRAMES. destruct v; cbn [fst snd].
  - right. left. cbn. lia.
  - destruct (isRecording st); [| now right; right].
    cbn [silenceCount buffer].
    destruct (Nat.leb_spec 10 (S (silenceCount st))).
    + destruct (MIN_VOICE_FRAMES <? List.length (buffer st ++ [buf]))%nat;
        [now left | right; left; cbn; lia].
    + right. left. cbn. lia.
Qed.

Lemma loopUntilAwait_steady s chunks :
  steady (audioState s) ->
  let '(s1, _, next) := loopUntilAwait Buffer_from s chunks in
  steady (audioState s1)
  /\ (next <> None
      \/ (silenceCount (audioState s1) < MIN_SILENCE_FRAMES)%nat
      \/ audioState s1 = audioState s).
Proof.
  revert s. induction chunks as [| c chunks IH]; intros s Hs; cbn [loopUntilAwait].
  - split; [exact Hs | now right; right].
  - destruct (decodeChunk Buffer_from c) as [| | e | buf v]; try apply (IH s Hs).
    pose proof (advance_steady _ buf v Hs) as Hst.
    pose proof (advance_waits (audioState s) buf v) as Hw.
    destruct (advance (audioState s) buf v) as [st waits]. cbn [fst snd] in *.
    destruct waits.
    + split; [exact Hst | left; discriminate].
    + specialize (IH (withAudioState s st) Hst).
      destruct (loopUntilAwait Buffer_from (withAudioState s st) chunks)
        as [[s1 effects] next].
      cbn [audioState withAudioState] in IH. destruct IH as [H1 H2].
      split; [exact H1 |].
      destruct H2 as [H2 | [H2 | H2]]; [now left | now right; left |].
      destruct Hw as [Hw | [Hw | Hw]]; [discriminate | | ].
      * right. left. now rewrite H2.
      * right. right. now rewrite H2.
Qed.

Lemma composed_launch : composed (fst launch).
Proof.
  split; cbn; [split; [now split | discriminate] |].
  unfold MIN_SILENCE_FRAMES. lia.
Qed.

Lemma waiting_more (l : list Suspended) next : next <> None -> l ++ waiting next <> [].
Proof.
  destruct next as [t |]; [| congruence]. intros _ H.
  apply app_eq_nil in H. destruct H as [_ H]. discriminate H.
Qed.

Lemma handle_composed p i s1 effects outcome ready :
  (forall ws parsed, i <> DownstreamMessage ws parsed) ->
  handle Buffer_from recognize (server p) i = (s1, effects, outcome) ->
  composed p ->
  composed {| server := s1; upstream := ready; suspended := suspended p;
              exited := threw outcome |}.
Proof.
  intros Hi Hh Hp.
  assert (Hst : audioState s1 = audioState (server p)).
  { destruct i as [ws | ws parsed | ws | parsed | | |]; cbn [handle] in Hh;
      try (injection Hh as <- _ _; reflexivity).
    - now destruct (Hi ws parsed).
    - destruct (onUpstreamMessage (server p) parsed). now injection Hh as <- _ _. }
  unfold composed in *. cbn [server suspended]. now rewrite Hst.
Qed.

Lemma deliver_composed p o :
  composed p -> composed (fst (deliver Buffer_from recognize p o)).
Proof.
  intros Hp. unfold deliver. destruct (exited p); [exact Hp |].
  destruct o as [i | k].
  - assert (Hh : forall i',
               (forall ws parsed, i' <> DownstreamMessage ws parsed) ->
               composed (fst (let '(s1, effects, outcome) :=
                                handle Buffer_from recognize (server p) i' in
                              ({| server := s1;
                                  upstream := match i' with
                                              | UpstreamOpen => OPEN
                                              | UpstreamError => CLOSING
                                              | UpstreamClose => CLOSED
                                              | _ => upstream p
                                              end;
                                  suspended := suspended p;
                                  exited := threw outcome |}, effects)))).
    { intros i' Hi.
      destruct (handle Buffer_from recognize (server p) i') as [[s1 effects] outcome] eqn:E.
      cbn [fst]. now apply (handle_composed p i' s1 effects outcome). }
    destruct i as [ws | ws parsed | ws | parsed | | |];
      try (apply Hh; discriminate).
    destruct (existsb (Nat.eqb ws) (sessions (server p))); [| exact Hp].
    unfold onDownstreamMessageUntilAwait.
    assert (Hsame : forall effects : list effect,
               composed {| server := server p; upstream := upstream p;
                           suspended := suspended p ++ []; exited := true |}).
    { intros _. unfold composed in *. cbn [server suspended]. now rewrite app_nil_r. }
    destruct (mediaChunksOf parsed) as [chunks | e]; [| apply (Hsame [])].
    assert (Hloop : composed
                      (fst (match iterate chunks with
                            | Throw e =>
                                ({| server := server p; upstream := upstream p;
                                    suspended := suspended p ++ []; exited := true |},
                                 [UpstreamSend clientWs (realtimeInputMessage chunks)])
                            | Ok items =>
                                let '(s1, effects, next) :=
                                  loopUntilAwait Buffer_from (server p) items in
                                ({| server := s1; upstream := upstream p;
                                    suspended := suspended p ++ waiting next;
                                    exited := false |},
                                 UpstreamSend clientWs (realtimeInputMessage chunks)
                                 :: effects)
                            end))).
    { destruct (iterate chunks) as [items | e]; [| apply (Hsame [])].
      destruct Hp as [Hs Hc].
      pose proof (loopUntilAwait_steady (server p) items Hs) as H.
      destruct (loopUntilAwait Buffer_from (server p) items) as [[s1 effects] next].
      destruct H as [H1 H2]. split; cbn [fst server suspended]; [exact H1 |].
      intros Hlong. destruct H2 as [H2 | [H2 | H2]].
      - now apply waiting_more.
      - lia.
      - rewrite H2 in Hlong. specialize (Hc Hlong). intros H.
        apply app_eq_nil in H. now destruct H. }
    destruct (upstream p); [apply (Hsame []) | | |];
      (destruct (iterate chunks) as [items | e]; [| exact Hloop];
       now destruct (loopUntilAwait Buffer_from (server p) items) as [[s1 effects] next]).
  - destruct (nth_error (suspended p) k) as [t |]; [| exact Hp].
    unfold resume.
    assert (Hs : steady (audioState (withAudioState (server p)
                                       (resetAudioState (audioState (server p)))))).
    { cbn. split; [now split | discriminate]. }
    pose proof (loopUntilAwait_steady _ (remaining t) Hs) as H.
    destruct (loopUntilAwait Buffer_from _ (remaining t)) as [[s1 effects] next].
    destruct H as [H1 H2]. split; cbn [fst server suspended]; [exact H1 |].
    intros Hlong. destruct H2 as [H2 | [H2 | H2]].
    + rewrite app_assoc. now apply waiting_more.
    + lia.
    + rewrite H2 in Hlong. cbn in Hlong. unfold MIN_SILENCE_FRAMES in Hlong. lia.
Qed.

Lemma deliverAll_composed p os :
  composed p -> composed (fst (deliverAll Buffer_from recognize p os)).
Proof.
  revert p. induction os as [| o os IH]; intros p Hp; cbn [deliverAll].
  - exact Hp.
  - pose proof (deliver_composed p o Hp) as H1.
    destruct (deliver Buffer_from recognize p o) as [p1 e1]. cbn [fst] in H1.
    specialize (IH p1 H1). now destruct (deliverAll Buffer_from recognize p1 os).
Qed.

(** X27: whatever happens in whatever order, messages well-formed or
    not, handlers overlapping or not, the detector's state is idle with an
    empty buffer and no silence counted, or recording with its trailing
    silent frames all in the buffer behind at least one other frame; and
    the silence count is below MIN_SILENCE_FRAMES unless a handler is
    waiting for a transcription. *)
Theorem X27_server_keeps_the_detector_invariant (os : list occurrence) :
  let p := fst (execute Buffer_from recognize os) in
  let st := audioState (server p) in
  (isRecording st = false -> buffer st = [] /\ silenceCount st = 0%nat)
  /\ (isRecording st = true -> (silenceCount st < List.length (buffer st))%nat)
  /\ (suspended p = [] -> (silenceCount st < MIN_SILENCE_FRAMES)%nat).
Proof.
  cbv zeta. unfold execute.
  pose proof (deliverAll_composed (fst launch) os composed_launch) as H.
  destruct launch as [p0 e0]. cbn [fst] in H.
  destruct (deliverAll Buffer_from recognize p0 os) as [p e]. cbn [fst] in *.
  destruct H as [[Hidle Hrec] Hc]. repeat split; try (now apply Hidle); try exact Hrec.
  intros Hnone. destruct (Nat.lt_ge_cases (silenceCount (audioState (server p)))
                                           MIN_SILENCE_FRAMES) as [Hlt | Hge];
    [exact Hlt | now destruct (Hc Hge)].
Qed.

End ServerInvariant.

(** ** Handlers that overlap *)

Section Overlap.

Variable Buffer_from : value -> result NodeBuffer.
Variable recognize : Buffer -> result (option string).

#[local] Abbreviation loop := (forEachChunk Buffer_from recognize).
#[local] Abbreviation untilAwait := (loopUntilAwait Buffer_from).
#[local] Abbreviation happen := (deliver Buffer_from recognize).
#[local] Abbreviation happenAll := (deliverAll Buffer_from recognize).

(** [ingest] is [advance] followed at once by the reset. *)
Lemma ingest_advance st buf v :
  ingest st buf v
  = let '(st1, waits) := advance st buf v in
    if waits then (resetAudioState st1, Some (buffer st1)) else (st1, None).
Proof.
  unfold ingest, advance. destruct v; [reflexivity |].
  destruct (isRecording st); [| reflexivity]. cbv zeta.
  destruct (MIN_SILENCE_FRAMES <=? _)%nat; [| reflexivity].
  now destruct (MIN_VOICE_FRAMES <? _)%nat.
Qed.

(** The loop with every answer at hand is the loop as far as its first
    [await], the answer, the reset, and the loop again on what is left. *)
Lemma forEachChunk_resumes s items :
  loop s items
  = match untilAwait s items with
    | (s1, e1, None) => (s1, e1)
    | (s1, e1, Some t) =>
        let '(s2, e2) :=
          loop (withAudioState s1 (resetAudioState (audioState s1))) (remaining t) in
        (s2, e1 ++ sendTranscription recognize s1 (audio t) ++ e2)
    end.
Proof.
  revert s. induction items as [| c items IH]; intros s;
    cbn [forEachChunk loopUntilAwait]; [reflexivity |].
  unfold processChunk.
  destruct (decodeChunk Buffer_from c) as [| | e | buf v];
    try (cbv beta iota; rewrite IH;
         destruct (untilAwait s items) as [[s1 e1] [t |]];
         [destruct (loop _ (remaining t)) as [s2 e2] |]; reflexivity).
  rewrite ingest_advance.
  destruct (advance (audioState s) buf v) as [st [|]]; cbv beta iota.
  - unfold processSpeechToText, sendTranscription.
    cbn [remaining audio audioState withAudioState serverWs resetAudioState].
    destruct (loop _ items) as [s2 e2]. reflexivity.
  - rewrite IH.
    destruct (untilAwait (withAudioState s st) items) as [[s1 e1] [t |]];
      [destruct (loop _ (remaining t)) as [s2 e2] |]; reflexivity.
Qed.

Lemma remaining_shorter s items s1 e1 t :
  untilAwait s items = (s1, e1, Some t) ->
  (List.length (remaining t) < List.length items)%nat.
Proof.
  revert s. induction items as [| c items IH]; intros s; cbn [loopUntilAwait];
    [discriminate |].
  assert (Hrec : forall s', untilAwait s' items = (s1, e1, Some t) ->
                            (List.length (remaining t) < List.length (c :: items))%nat).
  { intros s' H. specialize (IH s' H). cbn [List.length]. lia. }
  destruct (decodeChunk Buffer_from c) as [| | e | buf v]; try apply Hrec.
  destruct (advance (audioState s) buf v) as [st [|]]; [| apply Hrec].
  intros H. injection H as _ _ <-. cbn [remaining List.length]. lia.
Qed.

Lemma deliver_answer q t :
  exited q = false ->
  suspended q = [t] ->
  happen q (Answers 0)
  = let '(s1, effects, next) := resume Buffer_from recognize (server q) t in
    ({| server := s1; upstream := upstream q; suspended := waiting next;
        exited := false |}, effects).
Proof.
  intros Hex Hq. unfold deliver. rewrite Hex, Hq. reflexivity.
Qed.

Lemma deliverAll_app q os1 os2 :
  happenAll q (os1 ++ os2)
  = let '(q1, e1) := happenAll q os1 in
    let '(q2, e2) := happenAll q1 os2 in
    (q2, e1 ++ e2).
Proof.
  revert q. induction os1 as [| o os1 IH]; intros q; cbn [app deliverAll].
  - now destruct (happenAll q os2).
  - destruct (happen q o) as [q1 e1]. rewrite IH.
    destruct (happenAll q1 os1) as [q2 e2]. destruct (happenAll q2 os2) as [q3 e3].
    now rewrite app_assoc.
Qed.

Lemma deliverAll_exited q os : exited q = true -> happenAll q os = (q, []).
Proof.
  intros Hex. induction os as [| o os IH]; cbn [deliverAll]; [reflexivity |].
  unfold deliver. now rewrite Hex, IH.
Qed.

Lemma arrivals_app os1 os2 : arrivals (os1 ++ os2) = arrivals os1 ++ arrivals os2.
Proof. apply flat_map_app. Qed.

Lemma arrivals_answers k n : arrivals (repeat (Answers k) n) = [].
Proof. induction n; [reflexivity | exact IHn]. Qed.

Lemma arrivals_arrive inputs : arrivals (map Arrives inputs) = inputs.
Proof. induction inputs as [| i inputs IH]; [reflexivity |]. cbn. now f_equal. Qed.

(** A waiting handler that is answered at once, again and again, ends as
    the loop with every answer at hand does. *)
Lemma answered_at_once n :
  forall items s e next q,
    (List.length items <= n)%nat ->
    untilAwait s items = (server q, e, next) ->
    suspended q = waiting next ->
    exited q = false ->
    exists k,
      let '(q1, e1) := happenAll q (repeat (Answers 0) k) in
      (server q1, e ++ e1) = loop s items
      /\ suspended q1 = []
      /\ upstream q1 = upstream q
      /\ exited q1 = false.
Proof.
  induction n as [| n IH]; intros items s e next q Hlen Hloop Hq Hex.
  - destruct items; [| cbn in Hlen; lia]. cbn [loopUntilAwait] in Hloop.
    injection Hloop as Hs He Hn. subst e next. exists 0%nat. cbn. now rewrite Hq, Hs.
  - pose proof (forEachChunk_resumes s items) as Hall. rewrite Hloop in Hall.
    destruct next as [t |].
    + pose proof (remaining_shorter s items _ _ _ Hloop) as Hshort.
      destruct (untilAwait (withAudioState (server q) (resetAudioState (audioState (server q))))
                  (remaining t)) as [[s1 e1] next1] eqn:Hnext.
      specialize (IH (remaining t) _ e1 next1
                     {| server := s1; upstream := upstream q; suspended := waiting next1;
                        exited := false |}
                     ltac:(lia) Hnext eq_refl eq_refl).
      destruct IH as [k IH]. exists (S k). cbn [repeat deliverAll].
      rewrite (deliver_answer q t Hex Hq). unfold resume. rewrite Hnext.
      destruct (happenAll _ (repeat (Answers 0) k)) as [q1 e2].
      cbn [server upstream] in IH. destruct IH as (Hrest & Hs & Hu & He).
      rewrite Hall, <- Hrest. repeat split; try assumption.
      now rewrite <- !app_assoc.
    + exists 0%nat. cbn. rewrite Hall, app_nil_r. now rewrite Hq.
Qed.

Lemma run_deliverAll inputs :
  forall q,
    exited q = false ->
    upstream q <> CONNECTING ->
    suspended q = [] ->
    exists os,
      arrivals os = inputs
      /\ let '(q1, effects) := happenAll q os in
         (server q1, effects) = run Buffer_from recognize (server q) inputs
         /\ suspended q1 = [].
Proof.
  induction inputs as [| i inputs IH]; intros q Hex Hup Hq.
  - exists []. cbn. now rewrite Hq.
  - assert (Hthrown : forall q1 e1,
               happen q (Arrives i) = (q1, e1) ->
               exited q1 = true -> suspended q1 = [] ->
               exists os,
                 arrivals os = i :: inputs
                 /\ let '(q2, effects) := happenAll q os in
                    (server q2, effects) = (server q1, e1) /\ suspended q2 = []).
    { intros q1 e1 Hi Hex1 Hq1. exists (map Arrives (i :: inputs)). split.
      - apply arrivals_arrive.
      - cbn [map deliverAll]. rewrite Hi, (deliverAll_exited q1 _ Hex1).
        now rewrite app_nil_r. }
    assert (Hgoes : forall q1 e1 os1,
               exited q1 = false -> upstream q1 <> CONNECTING -> suspended q1 = [] ->
               arrivals os1 = [i] ->
               happenAll q os1 = (q1, e1) ->
               exists os,
                 arrivals os = i :: inputs
                 /\ let '(q2, effects) := happenAll q os in
                    (server q2, effects)
                    = (let '(s2, e2) := run Buffer_from recognize (server q1) inputs in
                       (s2, e1 ++ e2))
                    /\ suspended q2 = []).
    { intros q1 e1 os1 Hex1 Hup1 Hq1 Harr Hi.
      destruct (IH q1 Hex1 Hup1 Hq1) as (os & Hos & Hrun).
      exists (os1 ++ os). split; [now rewrite arrivals_app, Harr, Hos |].
      rewrite deliverAll_app, Hi. destruct (happenAll q1 os) as [q2 e2].
      destruct Hrun as [<- Hs]. now split. }
    assert (Hother : (forall ws parsed, i <> DownstreamMessage ws parsed) ->
               happen q (Arrives i)
               = (let '(s1, effects, outcome) :=
                    handle Buffer_from recognize (server q) i in
                  ({| server := s1;
                      upstream := match i with
                                  | UpstreamOpen => OPEN
                                  | UpstreamError => CLOSING
                                  | UpstreamClose => CLOSED
                                  | _ => upstream q
                                  end;
                      suspended := suspended q;
                      exited := threw outcome |}, effects))).
    { intros Hi. unfold deliver. rewrite Hex.
      destruct i as [ws | ws parsed | ws | parsed | | |]; try reflexivity.
      now destruct (Hi ws parsed). }
    assert (Heasy : (forall ws parsed, i <> DownstreamMessage ws parsed) ->
               exists os,
                 arrivals os = i :: inputs
                 /\ let '(q1, effects) := happenAll q os in
                    (server q1, effects)
                    = run Buffer_from recognize (server q) (i :: inputs)
                    /\ suspended q1 = []).
    { intros Hi. specialize (Hother Hi). cbn [run].
      destruct (handle Buffer_from recognize (server q) i) as [[s1 e1] [u | e]].
      - apply (Hgoes {| server := s1;
                        upstream := match i with
                                    | UpstreamOpen => OPEN
                                    | UpstreamError => CLOSING
                                    | UpstreamClose => CLOSED
                                    | _ => upstream q
                                    end;
                        suspended := suspended q;
                        exited := false |} e1 [Arrives i]).
        + reflexivity.
        + cbn [upstream]. destruct i; try exact Hup; discriminate.
        + exact Hq.
        + reflexivity.
        + cbn [deliverAll]. rewrite Hother, app_nil_r. reflexivity.
      - exact (Hthrown _ _ Hother eq_refl Hq). }
    destruct i as [ws | ws parsed | ws | parsed | | |]; try (apply Heasy; discriminate).
    cbn [run handle].
    assert (Hi : happen q (Arrives (DownstreamMessage ws parsed))
                 = if existsb (Nat.eqb ws) (sessions (server q)) then
                     let '(s1, effects, outcome) :=
                       onDownstreamMessageUntilAwait Buffer_from (server q) (upstream q)
                         parsed in
                     ({| server := s1; upstream := upstream q;
                         suspended := suspended q
                                      ++ match outcome with
                                         | Ok next => waiting next
                                         | Throw _ => []
                                         end;
                         exited := threw outcome |}, effects)
                   else (q, [])).
    { unfold deliver. now rewrite Hex. }
    destruct (existsb (Nat.eqb ws) (sessions (server q))).
    + unfold onDownstreamMessage. unfold onDownstreamMessageUntilAwait in Hi.
      rewrite Hq in Hi. cbn [app] in Hi.
      destruct (mediaChunksOf parsed) as [chunks | e].
      * assert (Hi' : happen q (Arrives (DownstreamMessage ws parsed))
                      = match iterate chunks with
                        | Throw e =>
                            ({| server := server q; upstream := upstream q;
                                suspended := []; exited := true |},
                             [UpstreamSend clientWs (realtimeInputMessage chunks)])
                        | Ok items =>
                            let '(s1, effects, next) := untilAwait (server q) items in
                            ({| server := s1; upstream := upstream q;
                                suspended := waiting next; exited := false |},
                             UpstreamSend clientWs (realtimeInputMessage chunks) :: effects)
                        end).
        { rewrite Hi. destruct (upstream q); [contradiction | | |];
            (destruct (iterate chunks) as [items | e]; [| reflexivity];
             now destruct (untilAwait (server q) items) as [[s1 effects] next]). }
        clear Hi. destruct (iterate chunks) as [items | e].
        -- destruct (untilAwait (server q) items) as [[s1 effects] next] eqn:Hloop.
           destruct (answered_at_once (List.length items) items (server q) effects next
                       {| server := s1; upstream := upstream q; suspended := waiting next;
                          exited := false |}
                       (le_n _) Hloop eq_refl eq_refl) as [k Hk].
           destruct (happenAll _ (repeat (Answers 0) k)) as [q1 e1] eqn:Hrest.
           cbn [server upstream] in Hk. destruct Hk as (Hdone & Hs1 & Hu1 & He1).
           destruct (loop (server q) items) as [s2 e2]. injection Hdone as <- <-.
           eapply (Hgoes q1 _ (Arrives (DownstreamMessage ws parsed)
                               :: repeat (Answers 0) k)); try assumption.
           ++ now rewrite Hu1.
           ++ cbn [arrivals flat_map app]. fold (arrivals (repeat (Answers 0) k)).
              now rewrite arrivals_answers.
           ++ cbn [deliverAll]. rewrite Hi', Hrest. reflexivity.
        -- exact (Hthrown _ _ Hi' eq_refl eq_refl).
      * exact (Hthrown _ _ Hi eq_refl eq_refl).
    + eapply (Hgoes q [] [Arrives (DownstreamMessage ws parsed)]); try assumption.
      * reflexivity.
      * cbn [deliverAll]. now rewrite Hi.
Qed.

(** X28: the executions in which no two handlers overlap are executions
    of the process: for every list of inputs, delivering them in order
    and answering each transcription request before the next delivery
    leaves the server as [run] says and has the same effects in the same
    order, with no handler left waiting, also when a listener throws on
    the way and the process ends. *)
Theorem X28_runs_are_executions (s : Server) (inputs : list input) :
  exists os,
    arrivals os = inputs
    /\ let '(p, effects) := deliverAll Buffer_from recognize (settled s) os in
       (server p, effects) = run Buffer_from recognize s inputs
       /\ suspended p = [].
Proof.
  apply (run_deliverAll inputs (settled s)); [reflexivity | discriminate | reflexivity].
Qed.

Lemma recognized_sendTranscription s a :
  recognized (sendTranscription recognize s a) = [].
Proof.
  unfold sendTranscription. destruct (recognize a) as [[t |] | e]; try reflexivity.
  destruct (truthy (Some (JStr t))); [| reflexivity]. now destruct (serverWs s).
Qed.

Lemma untilAwait_voiced s chunks bufs :
  map (decodeChunk Buffer_from) chunks = map frameOutcome (voicedFrames bufs) ->
  exists s1,
    untilAwait s chunks = (s1, [], None)
    /\ buffer (audioState s1) = buffer (audioState s) ++ bufs
    /\ sessions s1 = sessions s.
Proof.
  revert s bufs. induction chunks as [| c chunks IH]; intros s [| b bufs] E;
    try discriminate E; cbn [loopUntilAwait].
  - exists s. now rewrite app_nil_r.
  - cbn [map voicedFrames frameOutcome fst snd] in E. injection E as Ec E.
    rewrite Ec. cbn [advance].
    destruct (IH (withAudioState s {| isRecording := true;
                                      buffer := buffer (audioState s) ++ [b];
                                      silenceCount := 0 |}) bufs E)
      as (s1 & Hloop & Hbuf & Hss).
    exists s1. split; [exact Hloop |]. split; [| exact Hss].
    rewrite Hbuf. cbn [audioState withAudioState buffer]. now rewrite <- app_assoc.
Qed.

(** X29: what is handled while another handler waits for its
    transcription is lost: voiced frames that arrive then are pushed
    onto the buffer, and when the waiting handler, its own chunks all
    handled, is answered it clears the buffer; the frames are in no
    transcription request and no longer in the buffer. *)
Theorem X29_frames_handled_while_waiting_are_lost
  (p : Process) (ws : Sock) (chunks : list json) (bufs : list Buffer)
  (k : nat) (t : Suspended) :
  exited p = false ->
  upstream p <> CONNECTING ->
  existsb (Nat.eqb ws) (sessions (server p)) = true ->
  nth_error (suspended p) k = Some t ->
  remaining t = [] ->
  map (decodeChunk Buffer_from) chunks = map frameOutcome (voicedFrames bufs) ->
  let '(p1, e1) := deliver Buffer_from recognize p (Arrives (DownstreamMessage ws (clientBatch chunks))) in
  let '(p2, e2) := deliver Buffer_from recognize p1 (Answers k) in
  buffer (audioState (server p1)) = buffer (audioState (server p)) ++ bufs
  /\ recognized (e1 ++ e2) = []
  /\ audioState (server p2) = audioState0
  /\ suspended p2 = firstn k (suspended p) ++ skipn (S k) (suspended p).
Proof.
  intros Hex Hup Hws Ht Hrem Hdec.
  destruct (untilAwait_voiced (server p) chunks bufs Hdec) as (s1 & Hloop & Hbuf & Hss).
  assert (H1 : happen p (Arrives (DownstreamMessage ws (clientBatch chunks)))
               = ({| server := s1; upstream := upstream p; suspended := suspended p ++ [];
                     exited := false |},
                  [UpstreamSend clientWs (clientBatch chunks)])).
  { unfold deliver. rewrite Hex, Hws. unfold onDownstreamMessageUntilAwait.
    change (mediaChunksOf (clientBatch chunks)) with (Ok (A := value) (Some (JArr chunks))).
    cbn [iterate realtimeInputMessage]. rewrite Hloop.
    destruct (upstream p); [contradiction | | |]; reflexivity. }
  rewrite H1. unfold deliver. cbn [exited suspended server].
  rewrite app_nil_r, Ht. unfold resume. rewrite Hrem. cbn [loopUntilAwait waiting].
  rewrite !app_nil_r. cbn [server audioState withAudioState suspended].
  repeat split; try assumption.
  unfold recognized. cbn [app flat_map].
  apply recognized_sendTranscription.
Qed.




End Overlap.


Lemma X29_frames_handled_while_waiting_are_lost_witness :
  let '(p1, e1) :=
    deliver Samples.Buffer_from Samples.recognize Scenes.waitingForAnswer
      (Arrives (DownstreamMessage 1%nat (clientBatch [Samples.loudChunk]))) in
  let '(p2, e2) := deliver Samples.Buffer_from Samples.recognize p1 (Answers 0) in
  buffer (audioState (server p1))
  = buffer (audioState (server Scenes.waitingForAnswer)) ++ [Samples.loud]
  /\ recognized (e1 ++ e2) = []
  /\ audioState (server p2) = audioState0
  /\ suspended p2 = [].
Proof.
  apply (X29_frames_handled_while_waiting_are_lost
           Samples.Buffer_from Samples.recognize Scenes.waitingForAnswer 1%nat
           [Samples.loudChunk] [Samples.loud] 0%nat
           {| audio := Scenes.heard; remaining := [] |}).
  - reflexivity.
  - discriminate.
  - reflexivity.
  - reflexivity.
  - reflexivity.
  - cbn [map voicedFrames frameOutcome fst snd]. now rewrite decode_loudChunk.
Defined.


(** X12: while no browser has connected, [serverWs] is unassigned:
    nothing the model service sends is relayed, and a model turn makes the
    handler throw a [TypeError] at the send. *)
Theorem X12_model_output_before_any_client
  (s : Server) (response : json) (parts : list Part) :
  serverWs s = None ->
  fst (onUpstreamMessage s response) = []
  /\ onUpstreamMessage s (serverContentMessage [modelTurnMember parts])
     = ([], Throw TypeError).
Proof.
  intros Hws. split.
  - destruct (upstream_relay_shape s response)
      as [H | (ws & _ & _ & Hsome & _)]; [exact H | congruence].
  - unfold onUpstreamMessage.
    change (isServerContentMessage (Some (serverContentMessage [modelTurnMember parts])))
      with (@Ok bool true).
    cbn [serverContentMessage get lookup String.eqb Ascii.eqb Bool.eqb JS.bind
         isInterrupted modelTurnMember truthy isTurnComplete
         isModelTurn typeof jstype_eqb audioPartsOf].
    rewrite filter_r_parts. cbn [JS.bind snd]. now rewrite Hws.
Qed.

Lemma X12_model_output_before_any_client_witness :
  onUpstreamMessage (fst boot) (serverContentMessage [modelTurnMember [TextPart "hai"]])
  = ([], Throw TypeError).
Proof.
  exact (proj2 (X12_model_output_before_any_client
                  (fst boot) JNull [TextPart "hai"] eq_refl)).
Defined.
